(** * SMS forwarding bot (bot.py): dedup/filter/forward tick and the
      configuration conversation, embedded and verified.

    Python values are modelled as follows.
    - [str] is a sequence of Unicode code points ([list N]); the methods of
      [str] that the bot calls and whose meaning is a fixed algorithm
      ([strip], [split], [replace], [in], [startswith]) are written out.
    - [str.lower] and [int(str)] are tables and grammars of the Python
      runtime; they are taken as the interface [PyBuiltins].
    - [int] is [Z]; [Optional[T]] is [option T].
    - A message of the source endpoint is a JSON object. Its [id] is
      absent, null or an integer, its [content] absent, null or a string;
      a null makes [messages.sort] or [content.lower()] raise, and the
      exception leaves [poll_sms]. *)

From Stdlib Require Import List ZArith NArith Bool Lia Permutation Sorted.
From Stdlib Require Import String Ascii.
Import ListNotations.

Local Open Scope Z_scope.

(* ================================================================== *)
(** ** Python strings *)

Module PyStr.

Definition str := list N.

(** An ASCII literal as a Python string. *)
Definition lit (s : string) : str :=
  List.map N_of_ascii (list_ascii_of_string s).

Definition eqb (a b : str) : bool :=
  if list_eq_dec N.eq_dec a b then true else false.

(** [x in xs] for a list of strings. *)
Definition mem (x : str) (xs : list str) : bool := existsb (eqb x) xs.

(** Truthiness of a string: non-empty. *)
Definition truthy (s : str) : bool :=
  match s with [] => false | _ :: _ => true end.

(** [ch.isspace()]: the code points CPython classifies as whitespace. *)
Definition isspace (c : N) : bool :=
  (((9 <=? c) && (c <=? 13)) || ((28 <=? c) && (c <=? 32))
   || (c =? 133) || (c =? 160) || (c =? 5760)
   || ((8192 <=? c) && (c <=? 8202))
   || (c =? 8232) || (c =? 8233) || (c =? 8239) || (c =? 8287)
   || (c =? 12288))%N.

Fixpoint lstrip (s : str) : str :=
  match s with
  | [] => []
  | c :: s' => if isspace c then lstrip s' else s
  end.

Definition rstrip (s : str) : str := rev (lstrip (rev s)).

(** [s.strip()] *)
Definition strip (s : str) : str := rstrip (lstrip s).

(** [s.replace(old, new)] for one-code-point [old] and [new]. *)
Definition replace (old new : N) (s : str) : str :=
  List.map (fun c => if (c =? old)%N then new else c) s.

(** [s.split(sep)] for a one-code-point separator: never the empty list. *)
Fixpoint split (sep : N) (s : str) : list str :=
  match s with
  | [] => [[]]
  | c :: s' =>
      if (c =? sep)%N then [] :: split sep s'
      else match split sep s' with
           | [] => [[c]]
           | part :: parts => (c :: part) :: parts
           end
  end.

(** [s.startswith(p)] *)
Fixpoint startswith (p s : str) : bool :=
  match p, s with
  | [], _ => true
  | _ :: _, [] => false
  | a :: p', b :: s' => (a =? b)%N && startswith p' s'
  end.

(** [kw in s]: [kw] occurs in [s] as a contiguous run. *)
Fixpoint contains (kw s : str) : bool :=
  startswith kw s ||
  match s with
  | [] => false
  | _ :: s' => contains kw s'
  end.

(** [sep.join(parts)] for a one-code-point separator. *)
Fixpoint join (sep : N) (parts : list str) : str :=
  match parts with
  | [] => []
  | [p] => p
  | p :: ps => p ++ sep :: join sep ps
  end.

Definition is_ascii (c : N) : Prop := (c < 128)%N.

(** Lower-casing of one ASCII code point. *)
Definition ascii_lower (c : N) : N :=
  if ((65 <=? c) && (c <=? 90))%N then (c + 32)%N else c.

End PyStr.

Import PyStr.

Definition substring (kw s : str) : Prop :=
  exists pre post, s = pre ++ kw ++ post.

Definition blank (ws : str) : Prop := Forall (fun c => isspace c = true) ws.

Definition no_space_in_front (s : str) : Prop :=
  match s with [] => True | c :: _ => isspace c = false end.

(** [str.lower()] and [int(s)] ([None] stands for [ValueError]). *)
Class PyBuiltins := {
  lower : str -> str;
  py_int : str -> option Z
}.

(** The builtins restricted to ASCII: [lower] maps A-Z to a-z, [int]
    reads an optionally signed run of decimal digits. *)
Fixpoint digits_value (acc : Z) (s : str) : option Z :=
  match s with
  | [] => Some acc
  | c :: s' =>
      if ((48 <=? c) && (c <=? 57))%N
      then digits_value (10 * acc + (Z.of_N c - 48)) s'
      else None
  end.

Definition ascii_int (s : str) : option Z :=
  match strip s with
  | [] => None
  | 45%N :: (_ :: _) as d => option_map Z.opp (digits_value 0 d)
  | 43%N :: (_ :: _) as d => digits_value 0 d
  | d => digits_value 0 d
  end.

Definition ascii_builtins : PyBuiltins :=
  {| lower := List.map ascii_lower; py_int := ascii_int |}.

(* ================================================================== *)
(** ** Configuration record and its store *)

Record BotConfig := {
  sms_tokens : list str;
  active_sms_token : option str;
  target_chat_id : option Z;
  keywords : list str;
  last_seen_id : option Z;
  poll_interval : Z;
  forwarding_enabled : bool
}.

(** [BotConfig()] *)
Definition default_config : BotConfig :=
  {| sms_tokens := []; active_sms_token := None; target_chat_id := None;
     keywords := []; last_seen_id := None; poll_interval := 5;
     forwarding_enabled := false |}.

(** One keyword argument of [BotState.update]. *)
Inductive kwarg :=
| Set_sms_tokens (v : list str)
| Set_active_sms_token (v : option str)
| Set_target_chat_id (v : Z)
| Set_keywords (v : list str)
| Set_last_seen_id (v : Z)
| Set_forwarding_enabled (v : bool).

Definition setattr (c : BotConfig) (a : kwarg) : BotConfig :=
  match a with
  | Set_sms_tokens v =>
      {| sms_tokens := v; active_sms_token := active_sms_token c;
         target_chat_id := target_chat_id c; keywords := keywords c;
         last_seen_id := last_seen_id c; poll_interval := poll_interval c;
         forwarding_enabled := forwarding_enabled c |}
  | Set_active_sms_token v =>
      {| sms_tokens := sms_tokens c; active_sms_token := v;
         target_chat_id := target_chat_id c; keywords := keywords c;
         last_seen_id := last_seen_id c; poll_interval := poll_interval c;
         forwarding_enabled := forwarding_enabled c |}
  | Set_target_chat_id v =>
      {| sms_tokens := sms_tokens c; active_sms_token := active_sms_token c;
         target_chat_id := Some v; keywords := keywords c;
         last_seen_id := last_seen_id c; poll_interval := poll_interval c;
         forwarding_enabled := forwarding_enabled c |}
  | Set_keywords v =>
      {| sms_tokens := sms_tokens c; active_sms_token := active_sms_token c;
         target_chat_id := target_chat_id c; keywords := v;
         last_seen_id := last_seen_id c; poll_interval := poll_interval c;
         forwarding_enabled := forwarding_enabled c |}
  | Set_last_seen_id v =>
      {| sms_tokens := sms_tokens c; active_sms_token := active_sms_token c;
         target_chat_id := target_chat_id c; keywords := keywords c;
         last_seen_id := Some v; poll_interval := poll_interval c;
         forwarding_enabled := forwarding_enabled c |}
  | Set_forwarding_enabled v =>
      {| sms_tokens := sms_tokens c; active_sms_token := active_sms_token c;
         target_chat_id := target_chat_id c; keywords := keywords c;
         last_seen_id := last_seen_id c; poll_interval := poll_interval c;
         forwarding_enabled := v |}
  end.

(** A field of a JSON object: the key is absent, its value is null, or
    it has a value of the type the endpoint gives it. *)
Inductive field (A : Type) : Type :=
| Absent
| Null
| Present (a : A).

Arguments Absent {A}.
Arguments Null {A}.
Arguments Present {A} a.

(** A message of the source endpoint. The fields that are only printed
    are kept as [msg.get(key)]. *)
Record message := {
  msg_id : field Z;
  msg_content : field str;
  msg_number : option str;
  msg_simnum : option str;
  msg_time : option str
}.

(** [msg.get("id")]: [None] is Python's [None], for an absent key and
    for a null. *)
Definition get_id (msg : message) : option Z :=
  match msg_id msg with
  | Present i => Some i
  | Absent | Null => None
  end.

(** [msg.get("content", "")]: the default stands in for an absent key
    only; a null stays [None]. *)
Definition get_content (msg : message) : option str :=
  match msg_content msg with
  | Present c => Some c
  | Absent => Some []
  | Null => None
  end.

(** Replies of the bot to the operator. *)
Inductive reply :=
| R_denied
| R_welcome
| R_use_buttons
| R_token_empty
| R_token_added (token : str)
| R_chat_id_invalid
| R_chat_lookup_failed
| R_chat_id_set (chat_id : Z)
| R_keywords_updated (kws : list str)
| R_keywords_cleared
| R_select_cancelled
| R_token_invalid
| R_token_selected (token : str)
| R_delete_cancelled
| R_token_deleted (token : str) (active : option str)
| R_bad_state
| R_ask_token
| R_no_tokens
| R_choose_token
| R_nothing_to_delete
| R_choose_delete
| R_ask_chat_id
| R_ask_keywords
| R_need_token
| R_need_chat_id
| R_no_job_queue
| R_started
| R_stopped
| R_show_config (c : BotConfig)
| R_back_to_menu.

Inductive markup :=
| NoMarkup
| MainMenuMarkup
| KeyboardRemove
| Buttons (rows : list (list str)).

(** What a handler or a tick does to the outside, in order. [Save] is
    [config.save] inside [BotState.update]; [SendSms] is one call of
    [send_message] with the text formatted from the fields of [msg], and
    [delivered] tells whether the call returned or raised (and was
    logged); [Raised] is an exception that leaves the handler. *)
Inductive event :=
| Save (c : BotConfig)
| SendSms (chat_id : Z) (msg : message) (delivered : bool)
| FetchFailed
| Reply (r : reply) (m : markup)
| Raised
| JobRegistered (interval : Z)
| JobRemoved.

(** [BotState.update]: set each given attribute, then save once. *)
Definition update (c : BotConfig) (kwargs : list kwarg)
  : BotConfig * list event :=
  let c' := fold_left setattr kwargs c in
  (c', [Save c']).

(* ================================================================== *)
(** ** The poll tick: sort, dedup against the mark, filter, forward *)

(** The sort key [item.get("id", 0)]: the default stands in for an
    absent key only; a null id gives the key [None]. *)
Definition sort_key (item : message) : option Z :=
  match msg_id item with
  | Present i => Some i
  | Absent => Some 0
  | Null => None
  end.

(** The comparison of two keys by the sort: [None] when it raises
    [TypeError], which it does unless both keys are integers. *)
Definition key_leb (a b : option Z) : option bool :=
  match a, b with
  | Some x, Some y => Some (x <=? y)
  | _, _ => None
  end.

(** [messages.sort(key=...)] is a stable sort; it is written here as the
    insertion sort that keeps an earlier item before later items of the
    same key. The result is [None] when a comparison raises: a list of
    one item is never compared, a longer one compares every item. *)
Fixpoint insert_sorted (x : message) (l : list message)
  : option (list message) :=
  match l with
  | [] => Some [x]
  | y :: l' =>
      match key_leb (sort_key x) (sort_key y) with
      | None => None
      | Some true => Some (x :: l)
      | Some false => option_map (cons y) (insert_sorted x l')
      end
  end.

Fixpoint sort_by_id (messages : list message) : option (list message) :=
  match messages with
  | [] => Some []
  | x :: rest =>
      match sort_by_id rest with
      | None => None
      | Some sorted => insert_sorted x sorted
      end
  end.

(** The same sort on integer keys alone, where nothing raises: what
    [sort_by_id] returns when it returns (lemma [sort_by_id_spec]). *)
Definition int_key (item : message) : Z :=
  match sort_key item with Some k => k | None => 0 end.

Fixpoint insert_by_key (x : message) (l : list message) : list message :=
  match l with
  | [] => [x]
  | y :: l' =>
      if int_key x <=? int_key y then x :: l else y :: insert_by_key x l'
  end.

Definition stable_sort (messages : list message) : list message :=
  fold_right insert_by_key [] messages.

Definition key_le (a b : message) : Prop := int_key a <= int_key b.

Definition key_sorted (l : list message) : Prop := StronglySorted key_le l.

Definition null_id (msg : message) : bool :=
  match msg_id msg with Null => true | _ => false end.

(** The sort raises: two or more items, one of them with a null id. *)
Definition sort_raises (messages : list message) : bool :=
  (1 <? List.length messages)%nat && existsb null_id messages.

(** The test of the first loop: the id is present, and the mark is unset
    or smaller. *)
Definition is_new (last_seen_id : option Z) (msg : message) : bool :=
  match get_id msg with
  | None => false
  | Some i =>
      match last_seen_id with
      | None => true
      | Some h => h <? i
      end
  end.

Fixpoint select_new (last_seen_id : option Z) (messages : list message)
  : list message :=
  match messages with
  | [] => []
  | msg :: rest =>
      if is_new last_seen_id msg
      then msg :: select_new last_seen_id rest
      else select_new last_seen_id rest
  end.

(** [config.last_seen_id or 0] *)
Definition or_zero (v : option Z) : Z :=
  match v with
  | None => 0
  | Some h => if h =? 0 then 0 else h
  end.

(** The list the first loop builds from the fetched batch; nothing when
    the sort raised. *)
Definition new_messages_of (last_seen_id : option Z) (messages : list message)
  : list message :=
  match sort_by_id messages with
  | Some sorted => select_new last_seen_id sorted
  | None => []
  end.

(** The tick runs its pipeline on this configuration. *)
Definition tick_ready (config : BotConfig) : Prop :=
  forwarding_enabled config = true /\
  (exists token, active_sms_token config = Some token /\ token <> []) /\
  (exists chat_id, target_chat_id config = Some chat_id /\ chat_id <> 0).

(** Projections of a trace. *)
Definition sent_messages (evs : list event) : list message :=
  flat_map (fun e => match e with SendSms _ m _ => [m] | _ => [] end) evs.

Definition saved_configs (evs : list event) : list BotConfig :=
  flat_map (fun e => match e with Save c => [c] | _ => [] end) evs.

Definition ids_of (l : list message) : list Z :=
  flat_map (fun m => match get_id m with Some i => [i] | None => [] end) l.

Definition has_id (msg : message) : bool :=
  match get_id msg with Some _ => true | None => false end.

Section Tick.
Context {builtins : PyBuiltins}.

(** The guard [keywords and not any(kw in content.lower() ...)] under
    which a message is passed over. *)
Definition skipped (keywords : list str) (content : str) : bool :=
  match keywords with
  | [] => false
  | _ :: _ => negb (existsb (fun kw => contains kw (lower content)) keywords)
  end.


(** The guard on [msg.get("content", "")]: [None] when it raises
    [AttributeError], which [content.lower()] does on a null content;
    without keywords the content is not looked at. *)
Definition skip_test (keywords : list str) (content : option str)
  : option bool :=
  match keywords, content with
  | [], _ => Some false
  | _ :: _, None => None
  | _ :: _, Some c => Some (skipped keywords c)
  end.

(** The second loop. [delivered] gives the outcome of each call of
    [send_message] in order ([false]: it raised and was logged); a call
    beyond the list succeeds. The first component is [None] when an
    exception left the loop: on [max(last_seen, None)] for a null id and
    on the guard for a null content; the sends made before it stand. *)
Fixpoint forward_loop (keywords : list str) (chat_id : Z)
    (new_messages : list message) (last_seen : Z) (delivered : list bool)
  : option Z * list event :=
  match new_messages with
  | [] => (Some last_seen, [])
  | msg :: rest =>
      match msg_id msg with
      | Null => (None, [Raised])
      | id =>
          let last_seen :=
            Z.max last_seen
                  (match id with Present i => i | _ => last_seen end) in
          match skip_test keywords (get_content msg) with
          | None => (None, [Raised])
          | Some true => forward_loop keywords chat_id rest last_seen delivered
          | Some false =>
              let '(last, evs) :=
                forward_loop keywords chat_id rest last_seen (tl delivered) in
              (last, SendSms chat_id msg (hd true delivered) :: evs)
          end
      end
  end.

(** [poll_sms]. [fetched] is the result of [fetch_sms] ([None]: it
    raised and was logged). Returns the configuration of the store after
    the tick and the effects of the tick; when the sort or the second
    loop raises, the tick ends there, with [Raised] as its last effect
    and nothing saved. *)
Definition poll_sms (config : BotConfig) (fetched : option (list message))
    (delivered : list bool) : BotConfig * list event :=
  match forwarding_enabled config, active_sms_token config,
        target_chat_id config with
  | true, Some token, Some chat_id =>
      if truthy token && negb (chat_id =? 0) then
        match fetched with
        | None => (config, [FetchFailed])
        | Some [] => (config, [])
        | Some messages =>
            match sort_by_id messages with
            | None => (config, [Raised])
            | Some sorted =>
                match select_new (last_seen_id config) sorted with
                | [] => (config, [])
                | new_messages =>
                    let keywords := List.map lower (keywords config) in
                    let last_seen := or_zero (last_seen_id config) in
                    let '(last_seen, sent) :=
                      forward_loop keywords chat_id new_messages last_seen
                                   delivered in
                    match last_seen with
                    | None => (config, sent)
                    | Some last_seen =>
                        let '(config', saved) :=
                          update config [Set_last_seen_id last_seen] in
                        (config', sent ++ saved)
                    end
                end
            end
        end
      else (config, [])
  | _, _, _ => (config, [])
  end.

(** A message at which the second loop raises. *)
Definition aborts (keywords : list str) (msg : message) : bool :=
  null_id msg ||
  match skip_test keywords (get_content msg) with
  | None => true
  | Some _ => false
  end.

(** The messages the second loop gets to: those before the first at
    which it raises. *)
Fixpoint attempted (keywords : list str) (new_messages : list message)
  : list message :=
  match new_messages with
  | [] => []
  | msg :: rest =>
      if aborts keywords msg then [] else msg :: attempted keywords rest
  end.

(** The loop sends this message when it gets to it: [sends] on the
    lower-cased keywords of the loop, [forwards] on the stored ones. *)
Definition sends (keywords : list str) (msg : message) : bool :=
  match skip_test keywords (get_content msg) with
  | Some skip => negb skip
  | None => false
  end.

Definition forwards (config_keywords : list str) (msg : message) : bool :=
  sends (List.map lower config_keywords) msg.

(** The tick raises on this batch: in the sort, or in the second loop
    at one of the new messages. *)
Definition tick_raises (config : BotConfig) (messages : list message) : bool :=
  sort_raises messages ||
  existsb (aborts (List.map lower (keywords config)))
          (new_messages_of (last_seen_id config) messages).

(** The configuration a tick leaves, given the new messages. *)
Definition after_tick (config : BotConfig) (new_messages : list message)
  : BotConfig :=
  match new_messages with
  | [] => config
  | _ :: _ =>
      setattr config
        (Set_last_seen_id
           (fold_left Z.max (ids_of new_messages)
                      (or_zero (last_seen_id config))))
  end.

Definition chat_of (config : BotConfig) : Z :=
  match target_chat_id config with Some c => c | None => 0 end.

(** The sends of a tick on its new messages. *)
Definition tick_sends (config : BotConfig) (new_messages : list message)
    (delivered : list bool) : list event :=
  snd (forward_loop (List.map lower (keywords config)) (chat_of config)
         new_messages (or_zero (last_seen_id config)) delivered).

End Tick.

(** The updated mark in the words of the specification:
    max(h, max id over the qualifying messages), [h] if none qualifies. *)
Definition spec_updated_mark (h : option Z) (qualifying : list Z) : option Z :=
  match qualifying with
  | [] => h
  | i :: ids =>
      let m := fold_right Z.max i ids in
      Some (match h with None => m | Some x => Z.max x m end)
  end.

(** A message carrying only an id and a text. *)
Definition sms (i : Z) (text : string) : message :=
  {| msg_id := Present i; msg_content := Present (lit text);
     msg_number := None; msg_simnum := None; msg_time := None |}.

Definition sms_without_id (text : string) : message :=
  {| msg_id := Absent; msg_content := Present (lit text);
     msg_number := None; msg_simnum := None; msg_time := None |}.

(** A message whose id is null, and one whose content is null. *)
Definition sms_null_id (text : string) : message :=
  {| msg_id := Null; msg_content := Present (lit text);
     msg_number := None; msg_simnum := None; msg_time := None |}.

Definition sms_null_content (i : Z) : message :=
  {| msg_id := Present i; msg_content := Null;
     msg_number := None; msg_simnum := None; msg_time := None |}.

(** A configuration on which ticks run. *)
Definition running_config (h : option Z) (kws : list str) : BotConfig :=
  {| sms_tokens := [lit "tok"]; active_sms_token := Some (lit "tok");
     target_chat_id := Some 42; keywords := kws; last_seen_id := h;
     poll_interval := 5; forwarding_enabled := true |}.

(* ================================================================== *)
(** ** The conversation with the operator *)

(** The value of [user_data["mode"]] when it is set: one of the five
    strings the menu handlers store there. The last branch of
    [handle_pending_input], for any other string, is never entered. *)
Inductive pending :=
| M_add_sms_token
| M_set_chat_id
| M_set_keywords
| M_select_sms_token
| M_delete_sms_token.

(** The button labels of [MAIN_MENU] and [RETURN_MENU], as code points. *)
Definition LABEL_ADD_TOKEN : str :=
  [10133; 32; 28155; 21152; 30701; 20449; 32; 84; 111; 107; 101; 110]%N.
Definition LABEL_SWITCH_TOKEN : str :=
  [128260; 32; 20999; 25442; 30701; 20449; 32; 84; 111; 107; 101; 110]%N.
Definition LABEL_DELETE_TOKEN : str :=
  [128465; 32; 21024; 38500; 30701; 20449; 32; 84; 111; 107; 101; 110]%N.
Definition LABEL_SET_CHAT : str :=
  [127919; 32; 35774; 32622; 30446; 26631; 32676; 32452]%N.
Definition LABEL_SET_KEYWORDS : str :=
  [128273; 32; 35774; 32622; 20851; 38190; 35789]%N.
Definition LABEL_START : str :=
  [9654; 65039; 32; 24320; 22987; 36716; 21457]%N.
Definition LABEL_STOP : str :=
  [9209; 32; 20572; 27490; 36716; 21457]%N.
Definition LABEL_SHOW_CONFIG : str :=
  [8505; 65039; 32; 26597; 30475; 37197; 32622]%N.
Definition LABEL_RETURN : str :=
  [11013; 65039; 32; 36820; 22238; 20027; 33756; 21333]%N.

Definition COMMA : N := 44%N.
Definition FULLWIDTH_COMMA : N := 65292%N.
Definition AT_SIGN : N := 64%N.

(** An incoming Telegram update, as far as the handlers look at it. *)
Record Update := {
  message_text : option str;
  effective_user : option Z;
  effective_chat : bool
}.

(** What the handlers read and write: the configuration in the store,
    the operator's [user_data["mode"]], and the job queue ([None]: the
    job-queue module is absent; [Some b]: whether the poll job is
    registered). *)
Record world := {
  store : BotConfig;
  user_mode : option pending;
  poll_job : option bool
}.

Definition with_store (w : world) (c : BotConfig) : world :=
  {| store := c; user_mode := user_mode w; poll_job := poll_job w |}.

Definition with_mode (w : world) (m : option pending) : world :=
  {| store := store w; user_mode := m; poll_job := poll_job w |}.

Definition with_job (w : world) (j : option bool) : world :=
  {| store := store w; user_mode := user_mode w; poll_job := j |}.

(** [state.update(...)] from a handler. *)
Definition store_update (w : world) (kwargs : list kwarg)
  : world * list event :=
  let '(c, saved) := update (store w) kwargs in (with_store w c, saved).

(** [[tokens[i:i+2] for i in range(0, len(tokens), 2)]] *)
Fixpoint rows_of_two (tokens : list str) : list (list str) :=
  match tokens with
  | [] => []
  | [a] => [[a]]
  | a :: b :: rest => [a; b] :: rows_of_two rest
  end.

Definition token_buttons (tokens : list str) : markup :=
  Buttons (rows_of_two tokens ++ [[LABEL_RETURN]]).

(** The keywords read from the operator's text. *)
Definition parse_keywords (text : str) : list str :=
  let normalized := replace FULLWIDTH_COMMA COMMA text in
  List.map strip (filter (fun part => truthy (strip part))
                         (split COMMA normalized)).

Section Conversation.
Context {builtins : PyBuiltins}.
Variable ADMIN_USER_IDS : list Z.

Definition is_authorized (u : Update) : bool :=
  match ADMIN_USER_IDS with
  | [] => true
  | _ :: _ =>
      match effective_user u with
      | None => false
      | Some id => existsb (Z.eqb id) ADMIN_USER_IDS
      end
  end.

(** [resolve_chat_id]: [inl tt] stands for [ValueError], [inr None] for
    another exception. [get_chat] is the answer of the transport for a
    handle ([None]: it raised). *)
Definition resolve_chat_id (get_chat : option Z) (value : str)
  : unit + option Z :=
  let value := strip value in
  if startswith [AT_SIGN] value then inr get_chat
  else match py_int value with
       | None => inl tt
       | Some id => inr (Some id)
       end.

Definition handle_pending_input (w : world) (get_chat : option Z)
    (mode : pending) (text : str) : world * list event :=
  match mode with
  | M_add_sms_token =>
      let token := strip text in
      if negb (truthy token) then (w, [Reply R_token_empty NoMarkup])
      else
        let config := store w in
        let tokens := sms_tokens config in
        let tokens := if mem token tokens then tokens else tokens ++ [token] in
        let '(w, saved) :=
          store_update w [Set_sms_tokens tokens;
                          Set_active_sms_token (Some token)] in
        (with_mode w None, saved ++ [Reply (R_token_added token) MainMenuMarkup])
  | M_set_chat_id =>
      match resolve_chat_id get_chat text with
      | inl _ => (w, [Reply R_chat_id_invalid NoMarkup])
      | inr None => (w, [Reply R_chat_lookup_failed NoMarkup])
      | inr (Some chat_id) =>
          let '(w, saved) := store_update w [Set_target_chat_id chat_id] in
          (with_mode w None,
           saved ++ [Reply (R_chat_id_set chat_id) MainMenuMarkup])
      end
  | M_set_keywords =>
      let keywords := parse_keywords text in
      let '(w, saved) := store_update w [Set_keywords keywords] in
      (with_mode w None,
       saved ++ [Reply (match keywords with
                        | [] => R_keywords_cleared
                        | _ :: _ => R_keywords_updated keywords
                        end) MainMenuMarkup])
  | M_select_sms_token =>
      if eqb text LABEL_RETURN
      then (with_mode w None, [Reply R_select_cancelled MainMenuMarkup])
      else
        let config := store w in
        if negb (mem text (sms_tokens config))
        then (w, [Reply R_token_invalid NoMarkup])
        else
          let '(w, saved) := store_update w [Set_active_sms_token (Some text)] in
          (with_mode w None,
           saved ++ [Reply (R_token_selected text) MainMenuMarkup])
  | M_delete_sms_token =>
      if eqb text LABEL_RETURN
      then (with_mode w None, [Reply R_delete_cancelled MainMenuMarkup])
      else
        let state_config := store w in
        let tokens := sms_tokens state_config in
        if negb (mem text tokens)
        then (w, [Reply R_token_invalid NoMarkup])
        else
          let tokens := filter (fun t => negb (eqb t text)) tokens in
          let active := active_sms_token state_config in
          let active :=
            match active with
            | Some a =>
                if eqb a text
                then match tokens with [] => None | t :: _ => Some t end
                else active
            | None => active
            end in
          let '(w, saved) :=
            store_update w [Set_sms_tokens tokens;
                            Set_active_sms_token active] in
          (with_mode w None,
           saved ++ [Reply (R_token_deleted text active) MainMenuMarkup])
  end.

Definition ask_sms_token (w : world) : world * list event :=
  (with_mode w (Some M_add_sms_token), [Reply R_ask_token KeyboardRemove]).

Definition choose_sms_token (w : world) : world * list event :=
  let config := store w in
  match sms_tokens config with
  | [] => (w, [Reply R_no_tokens MainMenuMarkup])
  | _ :: _ =>
      (with_mode w (Some M_select_sms_token),
       [Reply R_choose_token (token_buttons (sms_tokens config))])
  end.

Definition delete_sms_token (w : world) : world * list event :=
  let config := store w in
  match sms_tokens config with
  | [] => (w, [Reply R_nothing_to_delete MainMenuMarkup])
  | _ :: _ =>
      (with_mode w (Some M_delete_sms_token),
       [Reply R_choose_delete (token_buttons (sms_tokens config))])
  end.

Definition ask_chat_id (w : world) : world * list event :=
  (with_mode w (Some M_set_chat_id), [Reply R_ask_chat_id KeyboardRemove]).

Definition ask_keywords (w : world) : world * list event :=
  (with_mode w (Some M_set_keywords), [Reply R_ask_keywords KeyboardRemove]).

Definition start_forwarding (w : world) : world * list event :=
  let config := store w in
  match active_sms_token config with
  | Some (_ :: _) =>
      match target_chat_id config with
      | None => (w, [Reply R_need_chat_id MainMenuMarkup])
      | Some chat_id =>
          if chat_id =? 0 then (w, [Reply R_need_chat_id MainMenuMarkup])
          else
            match poll_job w with
            | None => (w, [Reply R_no_job_queue MainMenuMarkup])
            | Some existing =>
                let registered :=
                  if existing then []
                  else [JobRegistered (poll_interval config)] in
                let '(w, saved) :=
                  store_update (with_job w (Some true))
                               [Set_forwarding_enabled true] in
                (w, registered ++ saved ++ [Reply R_started MainMenuMarkup])
            end
      end
  | _ => (w, [Reply R_need_token MainMenuMarkup])
  end.

Definition stop_forwarding (w : world) : world * list event :=
  match poll_job w with
  | None => (w, [Raised])
  | Some existing =>
      let removed := if existing then [JobRemoved] else [] in
      let '(w, saved) :=
        store_update (with_job w (Some false))
                     [Set_forwarding_enabled false] in
      (w, removed ++ saved ++ [Reply R_stopped MainMenuMarkup])
  end.

Definition show_config (w : world) : world * list event :=
  (w, [Reply (R_show_config (store w)) MainMenuMarkup]).

Definition back_to_menu (w : world) : world * list event :=
  (with_mode w None, [Reply R_back_to_menu MainMenuMarkup]).

(** The table [handlers] of [handle_message], looked up by label. *)
Definition handlers : list (str * (world -> world * list event)) :=
  [ (LABEL_ADD_TOKEN, ask_sms_token);
    (LABEL_SWITCH_TOKEN, choose_sms_token);
    (LABEL_DELETE_TOKEN, delete_sms_token);
    (LABEL_SET_CHAT, ask_chat_id);
    (LABEL_SET_KEYWORDS, ask_keywords);
    (LABEL_START, start_forwarding);
    (LABEL_STOP, stop_forwarding);
    (LABEL_SHOW_CONFIG, show_config);
    (LABEL_RETURN, back_to_menu) ].

Fixpoint handlers_get (table : list (str * (world -> world * list event)))
    (text : str) : option (world -> world * list event) :=
  match table with
  | [] => None
  | (label, handler) :: table' =>
      if eqb text label then Some handler else handlers_get table' text
  end.

Definition handle_message (w : world) (u : Update) (get_chat : option Z)
  : world * list event :=
  match message_text u with
  | None => (w, [])
  | Some raw =>
      if negb (is_authorized u)
      then (w, if effective_chat u then [Reply R_denied NoMarkup] else [])
      else
        let text := strip raw in
        match user_mode w with
        | Some pending => handle_pending_input w get_chat pending text
        | None =>
            match handlers_get handlers text with
            | Some handler => handler w
            | None => (w, [Reply R_use_buttons MainMenuMarkup])
            end
        end
  end.

Definition handle_start (w : world) (u : Update) : world * list event :=
  if negb (is_authorized u)
  then (w, if effective_chat u then [Reply R_denied NoMarkup] else [])
  else (with_mode w None, [Reply R_welcome MainMenuMarkup]).

(** One thing that happens to the bot: a command, a text message, or a
    tick of the poll job. A tick runs only while the job is registered;
    a tick that raises ends with [Raised] and leaves the job registered,
    the job queue reporting the exception of a callback and going on
    with the schedule. *)
Inductive op :=
| Op_start (u : Update)
| Op_message (u : Update) (get_chat : option Z)
| Op_tick (fetched : option (list message)) (delivered : list bool).

Definition step (w : world) (o : op) : world * list event :=
  match o with
  | Op_start u => handle_start w u
  | Op_message u get_chat => handle_message w u get_chat
  | Op_tick fetched delivered =>
      match poll_job w with
      | Some true =>
          let '(c, evs) := poll_sms (store w) fetched delivered in
          (with_store w c, evs)
      | _ => (w, [])
      end
  end.

(** A run: the operations one after another, with the whole trace. *)
Fixpoint run (w : world) (ops : list op) : world * list event :=
  match ops with
  | [] => (w, [])
  | o :: ops' =>
      let '(w1, evs1) := step w o in
      let '(w2, evs2) := run w1 ops' in
      (w2, evs1 ++ evs2)
  end.

End Conversation.

(** The invariant of the token fields: the active token is unset or
    listed. *)
Definition active_token_listed (c : BotConfig) : Prop :=
  match active_sms_token c with
  | None => True
  | Some a => In a (sms_tokens c)
  end.

(** An authorized operator's text message. *)
Definition text_update (text : str) : Update :=
  {| message_text := Some text; effective_user := Some 7;
     effective_chat := true |}.

Definition config_AB : BotConfig :=
  {| sms_tokens := [lit "A"; lit "B"]; active_sms_token := Some (lit "A");
     target_chat_id := None; keywords := []; last_seen_id := None;
     poll_interval := 5; forwarding_enabled := false |}.

(** A configuration in which the return-to-menu label is a listed token
    (as left by adding it while a token was awaited). *)
Definition config_return_listed : BotConfig :=
  {| sms_tokens := [lit "A"; LABEL_RETURN];
     active_sms_token := Some LABEL_RETURN;
     target_chat_id := None; keywords := []; last_seen_id := None;
     poll_interval := 5; forwarding_enabled := false |}.

Definition menu_root (c : BotConfig) : world :=
  {| store := c; user_mode := None; poll_job := Some false |}.

Definition awaiting (c : BotConfig) (m : pending) : world :=
  {| store := c; user_mode := Some m; poll_job := Some false |}.

(** An operation saves at most once, and what it saves is the
    configuration it leaves; it keeps the active token listed; and it
    does not lower a mark that is set. *)
Definition config_effect (c : BotConfig) (r : world * list event) : Prop :=
  (saved_configs (snd r) = [] /\ store (fst r) = c \/
   saved_configs (snd r) = [store (fst r)]) /\
  (active_token_listed c -> active_token_listed (store (fst r))) /\
  (forall h, last_seen_id c = Some h ->
             exists h', last_seen_id (store (fst r)) = Some h' /\ h <= h').

Definition batch_101_99_103 : list message :=
  [sms 101 "a"; sms 99 "b"; sms_without_id "x"; sms 103 "c"].

Definition batch_codes : list message :=
  [sms 101 "your CODE 1"; sms 102 "spam"; sms 103 "code 3"].

Definition running_world (h : option Z) (kws : list str) : world :=
  {| store := running_config h kws; user_mode := None; poll_job := Some true |}.

Definition example_ops : list op :=
  [ Op_tick (Some batch_101_99_103) [];
    Op_message (text_update LABEL_STOP) None;
    Op_message (text_update LABEL_SET_KEYWORDS) None;
    Op_message (text_update (lit "code")) None;
    Op_message (text_update LABEL_START) None;
    Op_tick (Some batch_codes) [];
    Op_tick (Some [sms 104 "code 4"; sms 102 "late"]) [false];
    Op_message (text_update LABEL_DELETE_TOKEN) None;
    Op_message (text_update (lit "tok")) None;
    Op_tick (Some [sms 200 "code"]) [] ].

(* ================================================================== *)
(** ** Further projections and predicates on traces and configurations *)

(** The chats the sends of a trace went to. *)
Definition sent_chats (evs : list event) : list Z :=
  flat_map (fun e => match e with SendSms c _ _ => [c] | _ => [] end) evs.

(** What one event of a tick may be, given the configuration the tick
    read, what the fetch returned and the configuration the tick left;
    [Raised] is the end of a tick that the sort or the second loop left
    by an exception. *)
Definition tick_event_ok {builtins : PyBuiltins} (config : BotConfig)
    (fetched : option (list message)) (config' : BotConfig) (e : event)
  : Prop :=
  match e with
  | SendSms chat_id msg _ =>
      target_chat_id config = Some chat_id /\
      exists messages,
        fetched = Some messages /\ In msg messages /\
        is_new (last_seen_id config) msg = true
  | Save c => c = config'
  | FetchFailed => fetched = None
  | Raised =>
      exists messages,
        fetched = Some messages /\ tick_raises config messages = true /\
        config' = config
  | _ => False
  end.

(** The operator's message is the start button. *)
Definition is_start_message (o : op) : bool :=
  match o with
  | Op_message u _ =>
      match message_text u with
      | Some raw => eqb (strip raw) LABEL_START
      | None => false
      end
  | _ => false
  end.

(** What the sends of one operation, or of a run, are to the mark: the
    ids sent ascend, lie above the mark at the start when it is set, and
    at or below the mark at the end. *)
Definition send_effect (w : world) (r : world * list event) : Prop :=
  let sent := sent_messages (snd r) in
  List.map get_id sent = List.map Some (ids_of sent) /\
  StronglySorted Z.le (ids_of sent) /\
  (forall h, last_seen_id (store w) = Some h ->
             Forall (fun i => h < i) (ids_of sent)) /\
  (sent <> [] ->
   exists m, last_seen_id (store (fst r)) = Some m /\
             Forall (fun i => i <= m) (ids_of sent)).

(** The labels the menu reacts to, in the order of the table. *)
Definition MENU_LABELS : list str := List.map fst handlers.

(** The same update with another text. *)
Definition with_text (u : Update) (raw : str) : Update :=
  {| message_text := Some raw; effective_user := effective_user u;
     effective_chat := effective_chat u |}.

(** A text message of a given sender. *)
Definition operator_says (user : option Z) (raw : str) : Update :=
  {| message_text := Some raw; effective_user := user;
     effective_chat := true |}.

(** The only thing the bot tells a sender who is not authorized. *)
Definition denial_only (evs : list event) : Prop :=
  evs = [] \/ evs = [Reply R_denied NoMarkup].

(** A token as [add_sms_token] stores it: not empty, and trimmed. *)
Definition token_ok (t : str) : Prop := t <> [] /\ strip t = t.

(** The token list holds no token twice and only such tokens. *)
Definition tokens_ok (c : BotConfig) : Prop :=
  NoDup (sms_tokens c) /\ Forall token_ok (sms_tokens c).

(** A keyword as [set_keywords] stores it: not empty, trimmed, and free
    of both delimiters. *)
Definition keyword_ok (k : str) : Prop :=
  k <> [] /\ strip k = k /\ ~ In COMMA k /\ ~ In FULLWIDTH_COMMA k.

(** The registrations ([true]) and removals ([false]) of the poll job in
    a trace. *)
Definition job_events (evs : list event) : list bool :=
  flat_map (fun e => match e with
                     | JobRegistered _ => [true]
                     | JobRemoved => [false]
                     | _ => []
                     end) evs.

(** Each entry is the opposite of the one before it, the first the
    opposite of [b]. *)
Fixpoint alternating (b : bool) (l : list bool) : Prop :=
  match l with
  | [] => True
  | x :: l' => x = negb b /\ alternating x l'
  end.

(** What one operation, or a run, does to the job queue: without the
    job-queue module nothing ever; with it, the registrations and removals
    alternate, starting from the state at the start and ending in the
    state at the end. *)
Definition job_effect (w : world) (r : world * list event) : Prop :=
  match poll_job w with
  | None => poll_job (fst r) = None /\ job_events (snd r) = []
  | Some b =>
      alternating b (job_events (snd r)) /\
      poll_job (fst r) = Some (last (job_events (snd r)) b)
  end.

(** What [start_forwarding] asks for before it switches forwarding on. *)
Definition can_start (w : world) : Prop :=
  (exists token, active_sms_token (store w) = Some token /\ token <> []) /\
  (exists chat_id, target_chat_id (store w) = Some chat_id /\ chat_id <> 0) /\
  poll_job w <> None.

(** [range(start, stop, step)] for a positive [step], as the loop that
    counts up; [stop] steps are enough. *)
Fixpoint range_loop (fuel i stop step : nat) : list nat :=
  match fuel with
  | O => []
  | S fuel' =>
      if (i <? stop)%nat then i :: range_loop fuel' (i + step)%nat stop step
      else []
  end.

Definition py_range (start stop step : nat) : list nat :=
  range_loop stop start stop step.

(** The rows of the token keyboard as the handlers build them:
    [[tokens[i:i+2] for i in range(0, len(tokens), 2)]]. *)
Definition rows_by_slices (tokens : list str) : list (list str) :=
  List.map (fun i => firstn 2 (skipn i tokens))
           (py_range 0 (List.length tokens) 2).



(** A sender who is not on the allow-list [[7]], and one who is. *)
Definition stranger_says (raw : str) : Update := operator_says (Some 8) raw.

Definition admin_says (raw : str) : Update := operator_says (Some 7) raw.

(** Operations without the start button. *)
Definition stopped_ops : list op :=
  [ Op_tick (Some batch_codes) [];
    Op_message (text_update LABEL_ADD_TOKEN) None;
    Op_message (text_update (lit "tok2")) None;
    Op_tick (Some batch_codes) [] ].

(* ================================================================== *)
(** ** Tactics *)


Ltac prove_ready :=
  split; [reflexivity|];
  split; [eexists; split; [reflexivity | discriminate]
         | eexists; split; [reflexivity | discriminate]].

(* ================================================================== *)
(** ** Strings: facts about the written-out methods *)

Lemma eqb_eq (a b : str) : eqb a b = true <-> a = b.
Proof.
  unfold eqb. destruct (list_eq_dec N.eq_dec a b); split; congruence.
Qed.

Lemma eqb_refl (a : str) : eqb a a = true.
Proof. now apply eqb_eq. Qed.

Lemma eqb_neq (a b : str) : eqb a b = false <-> a <> b.
Proof.
  unfold eqb. destruct (list_eq_dec N.eq_dec a b); split; congruence.
Qed.

Lemma mem_In (x : str) (xs : list str) : mem x xs = true <-> In x xs.
Proof.
  unfold mem. rewrite existsb_exists. split.
  - intros [y [Hy E]]. apply eqb_eq in E. now subst.
  - intros Hx. exists x. split; [assumption | apply eqb_refl].
Qed.



(* ================================================================== *)
(** ** The sort of the batch *)

Lemma insert_by_key_perm (x : message) (l : list message) :
  Permutation (insert_by_key x l) (x :: l).
Proof.
  induction l as [|y l IH]; simpl.
  - reflexivity.
  - destruct (int_key x <=? int_key y).
    + reflexivity.
    + rewrite IH. apply perm_swap.
Qed.

Lemma stable_sort_perm (l : list message) : Permutation (stable_sort l) l.
Proof.
  induction l as [|x l IH]; simpl.
  - reflexivity.
  - rewrite insert_by_key_perm. now constructor.
Qed.

Lemma insert_by_key_sorted (x : message) (l : list message) :
  key_sorted l -> key_sorted (insert_by_key x l).
Proof.
  unfold key_sorted. induction l as [|y l IH]; simpl; intros Hs.
  - constructor; constructor.
  - inversion Hs as [|? ? Hl Hy]; subst.
    destruct (int_key x <=? int_key y) eqn:E.
    + apply Z.leb_le in E. constructor; [assumption|].
      constructor; [exact E|].
      eapply Forall_impl; [|exact Hy]. unfold key_le. intros; lia.
    + apply Z.leb_gt in E. constructor; [now apply IH|].
      eapply Permutation_Forall.
      * symmetry. apply insert_by_key_perm.
      * constructor; [unfold key_le; lia | assumption].
Qed.

Lemma stable_sort_sorted (l : list message) : key_sorted (stable_sort l).
Proof.
  induction l as [|x l IH]; simpl.
  - constructor.
  - now apply insert_by_key_sorted.
Qed.

(** Inserting below everything puts the item in front. *)
Lemma insert_by_key_front (x : message) (l : list message) :
  Forall (key_le x) l -> insert_by_key x l = x :: l.
Proof.
  intros H. destruct l as [|y l]; simpl; [reflexivity|].
  inversion H as [|? ? Hy _]; subst. unfold key_le in Hy.
  apply Z.leb_le in Hy. now rewrite Hy.
Qed.

Lemma filter_sorted (p : message -> bool) (l : list message) :
  key_sorted l -> key_sorted (filter p l).
Proof.
  unfold key_sorted. induction 1 as [|y l Hl IH Hy]; simpl.
  - constructor.
  - destruct (p y); [|assumption].
    constructor; [assumption|].
    apply Forall_forall. intros z Hz. apply filter_In in Hz.
    rewrite Forall_forall in Hy. now apply Hy.
Qed.

(** Filtering commutes with insertion into a sorted list. *)
Lemma filter_insert_by_key (p : message -> bool) (x : message)
    (l : list message) :
  key_sorted l ->
  filter p (insert_by_key x l) =
  if p x then insert_by_key x (filter p l) else filter p l.
Proof.
  unfold key_sorted. induction 1 as [|y l Hl IH Hy].
  - simpl. now destruct (p x).
  - cbn [insert_by_key]. destruct (int_key x <=? int_key y) eqn:E.
    + apply Z.leb_le in E. cbn [filter]. destruct (p x); [|reflexivity].
      symmetry. apply insert_by_key_front.
      destruct (p y).
      * constructor; [exact E|].
        apply Forall_forall. intros z Hz. apply filter_In in Hz.
        rewrite Forall_forall in Hy. specialize (Hy z (proj1 Hz)).
        unfold key_le in *. lia.
      * apply Forall_forall. intros z Hz. apply filter_In in Hz.
        rewrite Forall_forall in Hy. specialize (Hy z (proj1 Hz)).
        unfold key_le in *. lia.
    + cbn [filter]. rewrite IH. destruct (p y), (p x); cbn [insert_by_key];
        rewrite ?E; reflexivity.
Qed.

(** The stable sort commutes with every filter. *)
Lemma filter_stable_sort (p : message -> bool) (l : list message) :
  filter p (stable_sort l) = stable_sort (filter p l).
Proof.
  induction l as [|x l IH]; simpl; [reflexivity|].
  rewrite filter_insert_by_key by apply stable_sort_sorted.
  rewrite IH. now destruct (p x).
Qed.

Lemma stable_sort_same_key (k : Z) (l : list message) :
  Forall (fun m => int_key m = k) l -> stable_sort l = l.
Proof.
  induction 1 as [|x l Hx Hl IH]; simpl; [reflexivity|].
  rewrite IH. apply insert_by_key_front.
  eapply Forall_impl; [|exact Hl]. unfold key_le. intros; lia.
Qed.

(** Stability: the items of one key keep their order of arrival. *)
Lemma stable_sort_stable (k : Z) (l : list message) :
  filter (fun m => int_key m =? k) (stable_sort l) =
  filter (fun m => int_key m =? k) l.
Proof.
  rewrite filter_stable_sort. apply stable_sort_same_key with (k := k).
  apply Forall_forall. intros m Hm. apply filter_In in Hm.
  now apply Z.eqb_eq.
Qed.

(* ================================================================== *)
(** ** The dedup step *)

Lemma select_new_filter (h : option Z) (l : list message) :
  select_new h l = filter (is_new h) l.
Proof.
  induction l as [|m l IH]; simpl; [reflexivity|]. now rewrite IH.
Qed.

Lemma is_new_spec (h : option Z) (m : message) :
  is_new h m = true <->
  exists i, get_id m = Some i /\ (h = None \/ exists x, h = Some x /\ x < i).
Proof.
  unfold is_new. destruct (get_id m) as [i|].
  - destruct h as [x|].
    + rewrite Z.ltb_lt. split.
      * intros Hx. exists i. split; [reflexivity|]. right. now exists x.
      * intros [j [E [Hn | [y [Ey Hy]]]]]; [discriminate|]. congruence.
    + split; [|reflexivity]. intros _. exists i. now split; [|left].
  - split; [discriminate|]. intros [i [E _]]. discriminate.
Qed.

Lemma is_new_has_id (h : option Z) (m : message) :
  is_new h m = true -> has_id m = true.
Proof. unfold is_new, has_id. now destruct (get_id m). Qed.

Lemma select_new_sort (h : option Z) (l : list message) :
  select_new h (stable_sort l) = stable_sort (filter (is_new h) l).
Proof. rewrite select_new_filter. apply filter_stable_sort. Qed.

Lemma filter_is_new_has_id (h : option Z) (l : list message) :
  filter (is_new h) (filter has_id l) = filter (is_new h) l.
Proof.
  induction l as [|m l IH]; simpl; [reflexivity|].
  destruct (has_id m) eqn:E; simpl; rewrite IH.
  - reflexivity.
  - destruct (is_new h m) eqn:N; [|reflexivity].
    apply is_new_has_id in N. congruence.
Qed.

Lemma ids_of_keys (l : list message) :
  Forall (fun m => has_id m = true) l -> ids_of l = List.map int_key l.
Proof.
  induction 1 as [|m l Hm Hl IH]; [reflexivity|].
  cbn [List.map]. rewrite <- IH. unfold ids_of. cbn [flat_map].
  unfold has_id, get_id in Hm. unfold get_id, int_key, sort_key.
  destruct (msg_id m); try discriminate. reflexivity.
Qed.

Lemma key_sorted_ids (l : list message) :
  key_sorted l -> StronglySorted Z.le (List.map int_key l).
Proof.
  unfold key_sorted. induction 1 as [|m l Hl IH Hm]; simpl; constructor.
  - assumption.
  - apply Forall_forall. intros k Hk. apply in_map_iff in Hk.
    destruct Hk as [m' [<- Hm']]. rewrite Forall_forall in Hm.
    now apply Hm.
Qed.

Lemma select_new_has_id (h : option Z) (l : list message) :
  Forall (fun m => has_id m = true) (select_new h l).
Proof.
  rewrite select_new_filter. apply Forall_forall. intros m Hm.
  apply filter_In in Hm. now apply is_new_has_id with (h := h).
Qed.

(** The new messages of a batch are in ascending order of id. *)
Lemma select_new_ascending (h : option Z) (l : list message) :
  StronglySorted Z.le (ids_of (select_new h (stable_sort l))).
Proof.
  rewrite ids_of_keys by apply select_new_has_id.
  apply key_sorted_ids. rewrite select_new_filter.
  apply filter_sorted, stable_sort_sorted.
Qed.

(* ================================================================== *)
(** ** When the sort raises, and what it returns when it does not *)

Lemma existsb_perm {A} (f : A -> bool) (l l' : list A) :
  Permutation l l' -> existsb f l = existsb f l'.
Proof.
  induction 1 as [|x l l' _ IH|x y l|l l' l'' _ IH1 _ IH2]; simpl.
  - reflexivity.
  - now rewrite IH.
  - destruct (f x), (f y); reflexivity.
  - now rewrite IH1.
Qed.

Lemma sort_key_null (m : message) : sort_key m = None <-> null_id m = true.
Proof.
  unfold sort_key, null_id. destruct (msg_id m); split; congruence.
Qed.

Lemma sort_key_int (m : message) :
  null_id m = false -> sort_key m = Some (int_key m).
Proof.
  unfold int_key, sort_key, null_id. now destruct (msg_id m).
Qed.

Lemma insert_sorted_clean (x : message) (l : list message) :
  null_id x = false -> existsb null_id l = false ->
  insert_sorted x l = Some (insert_by_key x l).
Proof.
  intros Hx. induction l as [|y l IH]; intros Hl; [reflexivity|].
  cbn [existsb] in Hl. apply orb_false_iff in Hl as [Hy Hl].
  cbn [insert_sorted insert_by_key].
  rewrite (sort_key_int x Hx), (sort_key_int y Hy). cbn [key_leb].
  destruct (int_key x <=? int_key y); [reflexivity|].
  now rewrite (IH Hl).
Qed.

Lemma insert_sorted_null (x y : message) (l : list message) :
  null_id x = true \/ null_id y = true -> insert_sorted x (y :: l) = None.
Proof.
  intros H. cbn [insert_sorted].
  destruct H as [H|H]; apply sort_key_null in H; rewrite H.
  - reflexivity.
  - now destruct (sort_key x).
Qed.

(** The sort raises exactly on a batch of two or more items with a null
    id among them; otherwise it returns the stable sort by id, an absent
    id counting as 0. *)
Lemma sort_by_id_spec (l : list message) :
  sort_by_id l = if sort_raises l then None else Some (stable_sort l).
Proof.
  induction l as [|x l IH]; [reflexivity|].
  cbn [sort_by_id]. rewrite IH. unfold sort_raises in *.
  cbn [List.length existsb].
  destruct l as [|m l'].
  - cbn. now rewrite andb_false_r || reflexivity.
  - destruct (existsb null_id (m :: l')) eqn:En.
    + (* a null among the rest *)
      destruct l' as [|m2 l''].
      * cbn in En. rewrite orb_false_r in En. cbn.
        rewrite orb_true_r. apply insert_sorted_null. now right.
      * cbn [List.length]. cbn. now rewrite orb_true_r.
    + rewrite andb_false_r, orb_false_r.
      replace (1 <? S (List.length (m :: l')))%nat with true by reflexivity.
      cbn [andb].
      destruct (null_id x) eqn:Hx.
      * pose proof (stable_sort_perm (m :: l')) as P.
        destruct (stable_sort (m :: l')) as [|y s] eqn:Es.
        { apply Permutation_nil in P. discriminate. }
        apply insert_sorted_null. now left.
      * change (stable_sort (x :: m :: l'))
          with (insert_by_key x (stable_sort (m :: l'))).
        apply insert_sorted_clean; [exact Hx|].
        rewrite (existsb_perm null_id _ _ (stable_sort_perm (m :: l'))).
        exact En.
Qed.

Lemma new_messages_of_clean (h : option Z) (l : list message) :
  sort_raises l = false ->
  new_messages_of h l = select_new h (stable_sort l).
Proof.
  intros R. unfold new_messages_of. now rewrite sort_by_id_spec, R.
Qed.

Lemma new_messages_of_raised (h : option Z) (l : list message) :
  sort_raises l = true -> new_messages_of h l = [].
Proof.
  intros R. unfold new_messages_of. now rewrite sort_by_id_spec, R.
Qed.

Lemma new_messages_of_filter (h : option Z) (l : list message) :
  new_messages_of h l = [] \/
  new_messages_of h l = stable_sort (filter (is_new h) l).
Proof.
  destruct (sort_raises l) eqn:R.
  - left. now apply new_messages_of_raised.
  - right. rewrite new_messages_of_clean by exact R. apply select_new_sort.
Qed.

(* ================================================================== *)
(** ** The forwarding loop and the tick *)

Lemma fold_left_max_init (ids : list Z) (a : Z) :
  a <= fold_left Z.max ids a.
Proof.
  revert a. induction ids as [|i ids IH]; intros a; simpl; [lia|].
  specialize (IH (Z.max a i)). lia.
Qed.

Lemma fold_left_max_elem (ids : list Z) (a : Z) :
  Forall (fun i => i <= fold_left Z.max ids a) ids.
Proof.
  revert a. induction ids as [|i ids IH]; intros a; simpl; constructor.
  - pose proof (fold_left_max_init ids (Z.max a i)). lia.
  - apply IH.
Qed.

Lemma fold_left_max_spec (i : Z) (ids : list Z) (a : Z) :
  fold_left Z.max (i :: ids) a = Z.max a (fold_right Z.max i ids).
Proof.
  revert i a. induction ids as [|j ids IH]; intros i a; simpl.
  - reflexivity.
  - specialize (IH j (Z.max a i)). simpl in IH. rewrite IH.
    clear IH. revert i j. induction ids as [|k ids IH]; intros i j; simpl.
    + lia.
    + specialize (IH i k) as H1. specialize (IH j k) as H2. lia.
Qed.

Lemma ids_of_In (l : list message) (m : message) (i : Z) :
  In m l -> get_id m = Some i -> In i (ids_of l).
Proof.
  intros Hm E. unfold ids_of. apply in_flat_map. exists m.
  split; [assumption|]. rewrite E. now left.
Qed.

Lemma sent_messages_app (a b : list event) :
  sent_messages (a ++ b) = sent_messages a ++ sent_messages b.
Proof. unfold sent_messages. apply flat_map_app. Qed.

Lemma saved_configs_app (a b : list event) :
  saved_configs (a ++ b) = saved_configs a ++ saved_configs b.
Proof. unfold saved_configs. apply flat_map_app. Qed.

Lemma filter_filter_comm {A} (p q : A -> bool) (l : list A) :
  filter p (filter q l) = filter q (filter p l).
Proof.
  induction l as [|x l IH]; simpl; [reflexivity|].
  destruct (p x) eqn:P, (q x) eqn:Q; simpl; rewrite ?P, ?Q, IH; reflexivity.
Qed.

Lemma filter_none {A} (p : A -> bool) (l : list A) :
  (forall x, In x l -> p x = false) -> filter p l = [].
Proof.
  induction l as [|x l IH]; intros H; simpl; [reflexivity|].
  rewrite (H x) by now left. apply IH. intros; apply H; now right.
Qed.

Lemma filter_app_inv {A} (p : A -> bool) (l a b : list A) :
  filter p l = a ++ b ->
  exists l1 l2, l = l1 ++ l2 /\ filter p l1 = a /\ filter p l2 = b.
Proof.
  revert a. induction l as [|x l IH]; intros a E; simpl in E.
  - symmetry in E. apply app_eq_nil in E as [-> ->]. now exists [], [].
  - destruct (p x) eqn:P.
    + destruct a as [|y a]; simpl in E.
      * exists [], (x :: l). simpl. rewrite P. now subst b.
      * injection E as <- E. destruct (IH a E) as [l1 [l2 [-> [<- <-]]]].
        exists (x :: l1), l2. simpl. now rewrite P.
    + destruct (IH a E) as [l1 [l2 [-> [<- <-]]]].
      exists (x :: l1), l2. simpl. now rewrite P.
Qed.

Lemma filter_cons_inv {A} (p : A -> bool) (l b : list A) (x : A) :
  filter p l = x :: b ->
  exists l1 l2, l = l1 ++ x :: l2 /\ filter p l2 = b.
Proof.
  induction l as [|y l IH]; intros E; simpl in E; [discriminate|].
  destruct (p y).
  - injection E as -> E. now exists [], l.
  - destruct (IH E) as [l1 [l2 [-> <-]]]. now exists (y :: l1), l2.
Qed.

(** Two items that survive a filter in this order stand in this order
    in the list. *)
Lemma filter_two_inv {A} (p : A -> bool) (l a b c : list A) (x y : A) :
  filter p l = a ++ x :: b ++ y :: c ->
  exists l1 l2 l3, l = l1 ++ x :: l2 ++ y :: l3.
Proof.
  intros E.
  apply filter_app_inv in E as [k1 [k2 [-> [_ E]]]].
  apply filter_cons_inv in E as [k3 [k4 [-> E]]].
  apply filter_app_inv in E as [k5 [k6 [-> [_ E]]]].
  apply filter_cons_inv in E as [k7 [k8 [-> _]]].
  exists (k1 ++ k3), (k5 ++ k7), k8.
  now rewrite <- !app_assoc.
Qed.

Section TickFacts.
Context {builtins : PyBuiltins}.

(** One turn of the second loop. *)
Lemma forward_loop_step kws chat m l ls d :
  forward_loop kws chat (m :: l) ls d =
  if aborts kws m then (None, [Raised])
  else
    let ls' := Z.max ls (match get_id m with Some i => i | None => ls end) in
    if sends kws m
    then (fst (forward_loop kws chat l ls' (tl d)),
          SendSms chat m (hd true d)
          :: snd (forward_loop kws chat l ls' (tl d)))
    else forward_loop kws chat l ls' d.
Proof.
  cbn [forward_loop]. unfold aborts, null_id, sends, get_id.
  destruct (msg_id m) as [| |i]; cbn [orb]; try reflexivity;
    destruct (skip_test kws _) as [[|]|]; cbv zeta; try reflexivity;
    now destruct (forward_loop kws chat l _ (tl d)).
Qed.

Lemma ids_of_cons (m : message) (l : list message) :
  ids_of (m :: l) =
  match get_id m with Some i => [i] | None => [] end ++ ids_of l.
Proof. reflexivity. Qed.

Lemma fold_left_max_cons (m : message) (l : list message) (ls : Z) :
  fold_left Z.max (ids_of (m :: l)) ls =
  fold_left Z.max (ids_of l)
    (Z.max ls (match get_id m with Some i => i | None => ls end)).
Proof.
  rewrite ids_of_cons. destruct (get_id m); simpl; [reflexivity|].
  now rewrite Z.max_id.
Qed.

(** The loop returns a mark exactly when it raises at no message, and
    then the maximum of the starting mark and the ids. *)
Lemma forward_loop_result kws chat l ls d :
  fst (forward_loop kws chat l ls d) =
  if existsb (aborts kws) l then None
  else Some (fold_left Z.max (ids_of l) ls).
Proof.
  revert ls d. induction l as [|m l IH]; intros ls d; [reflexivity|].
  rewrite forward_loop_step, fold_left_max_cons. cbn [existsb].
  destruct (aborts kws m); cbn [orb]; [reflexivity|]. cbv zeta.
  destruct (sends kws m); cbn [fst]; apply IH.
Qed.

Lemma attempted_clean kws (l : list message) :
  existsb (aborts kws) l = false -> attempted kws l = l.
Proof.
  induction l as [|m l IH]; simpl; [reflexivity|].
  intros H. apply orb_false_iff in H as [Hm Hl]. rewrite Hm.
  now rewrite IH.
Qed.

Lemma attempted_incl kws (l : list message) (m : message) :
  In m (attempted kws l) -> In m l.
Proof.
  induction l as [|x l IH]; simpl; [trivial|].
  destruct (aborts kws x); simpl; [contradiction|].
  intros [->|H]; [now left | right; now apply IH].
Qed.

(** What the loop sends: of the messages it gets to, those that pass
    the keyword guard, in order. *)
Lemma forward_loop_sent kws chat l ls d :
  sent_messages (snd (forward_loop kws chat l ls d)) =
  filter (sends kws) (attempted kws l).
Proof.
  revert ls d. induction l as [|m l IH]; intros ls d; [reflexivity|].
  rewrite forward_loop_step. cbn [attempted].
  destruct (aborts kws m); [reflexivity|]. cbv zeta. cbn [filter].
  destruct (sends kws m); cbn [snd].
  - change (sent_messages (SendSms chat m (hd true d) :: ?evs))
      with (m :: sent_messages evs).
    unfold sent_messages at 1. cbn [flat_map app].
    f_equal. apply IH.
  - apply IH.
Qed.

Lemma forward_loop_saved kws chat l ls d :
  saved_configs (snd (forward_loop kws chat l ls d)) = [].
Proof.
  revert ls d. induction l as [|m l IH]; intros ls d; [reflexivity|].
  rewrite forward_loop_step.
  destruct (aborts kws m); [reflexivity|]. cbv zeta.
  destruct (sends kws m); cbn [snd]; [|apply IH].
  unfold saved_configs. cbn [flat_map app]. apply IH.
Qed.

(** The loop raises exactly when it comes to a message at which it
    aborts. *)
Lemma forward_loop_raised kws chat l ls d :
  In Raised (snd (forward_loop kws chat l ls d)) <->
  existsb (aborts kws) l = true.
Proof.
  revert ls d. induction l as [|m l IH]; intros ls d.
  - simpl. split; [contradiction | discriminate].
  - rewrite forward_loop_step. cbn [existsb].
    destruct (aborts kws m); cbn [orb].
    + split; [reflexivity | intros _; now left].
    + cbv zeta. destruct (sends kws m); cbn [snd]; [|apply IH].
      rewrite <- (IH (Z.max ls (match get_id m with
                                | Some i => i | None => ls end)) (tl d)).
      split; [intros [H|H]; [discriminate | exact H] | intros H; now right].
Qed.

(** What a tick does when it runs and the fetch succeeds. *)
Lemma poll_sms_run config messages delivered :
  tick_ready config ->
  poll_sms config (Some messages) delivered =
  if sort_raises messages then (config, [Raised])
  else
    match new_messages_of (last_seen_id config) messages with
    | [] => (config, [])
    | (_ :: _) as new_messages =>
        if existsb (aborts (List.map lower (keywords config))) new_messages
        then (config, tick_sends config new_messages delivered)
        else (after_tick config new_messages,
              tick_sends config new_messages delivered
              ++ [Save (after_tick config new_messages)])
    end.
Proof.
  intros [He [[token [Ht Hne]] [chat_id [Hc Hz]]]].
  unfold poll_sms, tick_sends, chat_of, new_messages_of. rewrite He, Ht, Hc.
  destruct token as [|t token]; [congruence|]. simpl truthy.
  apply Z.eqb_neq in Hz. rewrite Hz. simpl andb. cbv iota.
  destruct messages as [|m0 messages]; [reflexivity|].
  rewrite sort_by_id_spec.
  destruct (sort_raises (m0 :: messages)); [reflexivity|].
  destruct (select_new (last_seen_id config) (stable_sort (m0 :: messages)))
    as [|n rest] eqn:En; [reflexivity|].
  pose proof (forward_loop_result (List.map lower (keywords config)) chat_id
                (n :: rest) (or_zero (last_seen_id config)) delivered) as Hl.
  destruct (forward_loop _ chat_id (n :: rest) _ delivered) as [ls evs].
  cbn [fst snd] in *. subst ls.
  now destruct (existsb _ (n :: rest)).
Qed.

Lemma tick_raises_false config messages :
  tick_raises config messages = false ->
  sort_raises messages = false /\
  existsb (aborts (List.map lower (keywords config)))
          (new_messages_of (last_seen_id config) messages) = false.
Proof. unfold tick_raises. apply orb_false_iff. Qed.

(** What it does when, besides, it does not raise. *)
Lemma poll_sms_ready config messages delivered :
  tick_ready config ->
  tick_raises config messages = false ->
  poll_sms config (Some messages) delivered =
  match new_messages_of (last_seen_id config) messages with
  | [] => (config, [])
  | (_ :: _) as new_messages =>
      (after_tick config new_messages,
       tick_sends config new_messages delivered
       ++ [Save (after_tick config new_messages)])
  end.
Proof.
  intros Hready Hclean. apply tick_raises_false in Hclean as [Hs Ha].
  rewrite poll_sms_run by assumption. rewrite Hs.
  destruct (new_messages_of _ messages) as [|n rest]; [reflexivity|].
  cbv beta iota zeta. now rewrite Ha.
Qed.

(** The outcomes of a tick: it does nothing; the fetch failed; the sort
    raised; the second loop raised after some sends; or it completed. *)
Lemma poll_sms_cases config fetched delivered :
  poll_sms config fetched delivered = (config, []) \/
  (tick_ready config /\ fetched = None /\
   poll_sms config fetched delivered = (config, [FetchFailed])) \/
  (tick_ready config /\
   exists messages, fetched = Some messages /\
     sort_raises messages = true /\
     poll_sms config fetched delivered = (config, [Raised])) \/
  (tick_ready config /\
   exists messages n rest, fetched = Some messages /\
     sort_raises messages = false /\
     new_messages_of (last_seen_id config) messages = n :: rest /\
     existsb (aborts (List.map lower (keywords config))) (n :: rest) = true /\
     poll_sms config fetched delivered =
       (config, tick_sends config (n :: rest) delivered)) \/
  (tick_ready config /\
   exists messages n rest, fetched = Some messages /\
     tick_raises config messages = false /\
     new_messages_of (last_seen_id config) messages = n :: rest /\
     poll_sms config fetched delivered =
       (after_tick config (n :: rest),
        tick_sends config (n :: rest) delivered
        ++ [Save (after_tick config (n :: rest))])).
Proof.
  destruct (forwarding_enabled config) eqn:He;
    [|left; unfold poll_sms; now rewrite He].
  destruct (active_sms_token config) as [token|] eqn:Ht;
    [|left; unfold poll_sms; now rewrite He, Ht].
  destruct (target_chat_id config) as [chat_id|] eqn:Hc;
    [|left; unfold poll_sms; now rewrite He, Ht, Hc].
  destruct (truthy token && negb (chat_id =? 0)) eqn:G;
    [|left; unfold poll_sms; now rewrite He, Ht, Hc, G].
  assert (Hready : tick_ready config).
  { apply andb_true_iff in G as [G1 G2]. split; [exact He|]. split.
    - exists token. split; [exact Ht|]. now destruct token.
    - exists chat_id. split; [exact Hc|].
      apply negb_true_iff, Z.eqb_neq in G2. exact G2. }
  destruct fetched as [messages|].
  2:{ right; left. split; [exact Hready|]. split; [reflexivity|].
      unfold poll_sms. now rewrite He, Ht, Hc, G. }
  rewrite poll_sms_run by exact Hready.
  destruct (sort_raises messages) eqn:Hs.
  { right; right; left. split; [exact Hready|]. now exists messages. }
  destruct (new_messages_of (last_seen_id config) messages)
    as [|n rest] eqn:En; [now left|]. cbv beta iota zeta.
  destruct (existsb (aborts (List.map lower (keywords config))) (n :: rest))
    eqn:Ha.
  - right; right; right; left. split; [exact Hready|].
    now exists messages, n, rest.
  - right; right; right; right. split; [exact Hready|].
    exists messages, n, rest. split; [reflexivity|].
    split; [|now split]. unfold tick_raises. now rewrite Hs, En, Ha.
Qed.

Lemma tick_sends_sent config new_messages delivered :
  sent_messages (tick_sends config new_messages delivered) =
  filter (forwards (keywords config))
         (attempted (List.map lower (keywords config)) new_messages).
Proof. unfold tick_sends, forwards. apply forward_loop_sent. Qed.

Lemma tick_sends_saved config new_messages delivered :
  saved_configs (tick_sends config new_messages delivered) = [].
Proof. unfold tick_sends. apply forward_loop_saved. Qed.

Lemma tick_sends_raised config new_messages delivered :
  In Raised (tick_sends config new_messages delivered) <->
  existsb (aborts (List.map lower (keywords config))) new_messages = true.
Proof. unfold tick_sends. apply forward_loop_raised. Qed.

(** The sends of a tick that does not raise. *)
Lemma poll_sms_sent config messages delivered :
  tick_ready config ->
  tick_raises config messages = false ->
  sent_messages (snd (poll_sms config (Some messages) delivered)) =
  filter (forwards (keywords config))
         (new_messages_of (last_seen_id config) messages).
Proof.
  intros Hready Hclean. rewrite poll_sms_ready by assumption.
  apply tick_raises_false in Hclean as [_ Ha].
  destruct (new_messages_of _ messages) as [|n rest] eqn:En; [reflexivity|].
  cbn [snd]. rewrite sent_messages_app, tick_sends_sent.
  rewrite attempted_clean by exact Ha. simpl sent_messages.
  now rewrite app_nil_r.
Qed.

Lemma after_tick_ready config new_messages :
  tick_ready config -> tick_ready (after_tick config new_messages).
Proof.
  unfold after_tick. destruct new_messages; [trivial|].
  unfold tick_ready. simpl. trivial.
Qed.

Lemma after_tick_mark config new_messages :
  last_seen_id (after_tick config new_messages) =
  match new_messages with
  | [] => last_seen_id config
  | _ :: _ =>
      Some (fold_left Z.max (ids_of new_messages)
              (or_zero (last_seen_id config)))
  end.
Proof. unfold after_tick. now destruct new_messages. Qed.

Lemma or_zero_some (x : Z) : or_zero (Some x) = x.
Proof. unfold or_zero. destruct (x =? 0) eqn:E; [|reflexivity]. apply Z.eqb_eq in E. now subst. Qed.

Lemma has_id_not_null (m : message) : has_id m = true -> null_id m = false.
Proof. unfold has_id, get_id, null_id. now destruct (msg_id m). Qed.

Lemma sort_raises_has_id (l : list message) :
  sort_raises (filter has_id l) = false.
Proof.
  unfold sort_raises. apply andb_false_iff. right.
  induction l as [|m l IH]; simpl; [reflexivity|].
  destruct (has_id m) eqn:H; [|exact IH]. simpl.
  now rewrite (has_id_not_null m H).
Qed.

Lemma new_messages_of_has_id (h : option Z) (l : list message) :
  sort_raises l = false ->
  new_messages_of h (filter has_id l) = new_messages_of h l.
Proof.
  intros Hs. rewrite !new_messages_of_clean
    by (exact Hs || apply sort_raises_has_id).
  now rewrite !select_new_sort, filter_is_new_has_id.
Qed.

Lemma new_messages_have_id (h : option Z) (l : list message) :
  Forall (fun m => has_id m = true) (new_messages_of h l).
Proof.
  unfold new_messages_of. destruct (sort_by_id l); [|constructor].
  apply select_new_has_id.
Qed.

Lemma new_messages_ascending (h : option Z) (l : list message) :
  StronglySorted Z.le (ids_of (new_messages_of h l)).
Proof.
  destruct (sort_raises l) eqn:R.
  - rewrite new_messages_of_raised by exact R. constructor.
  - rewrite new_messages_of_clean by exact R. apply select_new_ascending.
Qed.


End TickFacts.

(* ================================================================== *)
(** ** The dedup step of a tick *)

Section TickClaims.
Context {builtins : PyBuiltins}.

(** C1, as amended. On a tick that runs, fetches the batch [messages]
    under the mark [h] and does not raise (the sort raises on a batch of
    two or more messages one of which has a null id; the second loop
    raises, with keywords set, at a new message with a null content):
    the new messages are exactly the messages of the batch whose id is
    present and qualifies ([h] unset or id > [h]), each as often as the
    batch has it; they are in ascending order of id, and the forwards
    are made in that order; dropping the messages without an id from the
    batch changes nothing in the tick; and the mark after the tick is
    [h], with nothing saved, if no message qualifies, and otherwise the
    maximum of the qualifying ids and of [h], where an unset [h] counts
    as 0, saved once. *)
Theorem dedup_step_selects_and_marks config messages delivered :
  tick_ready config ->
  tick_raises config messages = false ->
  let h := last_seen_id config in
  let new_messages := new_messages_of h messages in
  let result := poll_sms config (Some messages) delivered in
  Permutation new_messages (filter (is_new h) messages) /\
  (forall m, In m new_messages <->
             In m messages /\
             exists i, get_id m = Some i /\
                       (h = None \/ exists x, h = Some x /\ x < i)) /\
  StronglySorted Z.le (ids_of new_messages) /\
  sent_messages (snd result) =
    filter (forwards (keywords config)) new_messages /\
  poll_sms config (Some (filter has_id messages)) delivered = result /\
  last_seen_id (fst result) =
    match ids_of new_messages with
    | [] => h
    | _ :: _ => spec_updated_mark (Some (or_zero h)) (ids_of new_messages)
    end /\
  saved_configs (snd result) =
    match new_messages with [] => [] | _ :: _ => [fst result] end.
Proof.
  intros Hready Hclean h new_messages result.
  destruct (tick_raises_false _ _ Hclean) as [Hs Ha].
  assert (Hperm : Permutation new_messages (filter (is_new h) messages)).
  { unfold new_messages. rewrite new_messages_of_clean by exact Hs.
    rewrite select_new_sort. apply stable_sort_perm. }
  assert (Hsame : new_messages_of h (filter has_id messages) = new_messages).
  { now apply new_messages_of_has_id. }
  assert (Hclean' : tick_raises config (filter has_id messages) = false).
  { unfold tick_raises. fold h. rewrite Hsame, sort_raises_has_id.
    exact Ha. }
  split; [exact Hperm|]. split.
  { intros m. split.
    - intros Hm. apply (Permutation_in _ Hperm) in Hm.
      apply filter_In in Hm as [Hin Hnew]. split; [exact Hin|].
      now apply is_new_spec.
    - intros [Hin Hq]. apply (Permutation_in _ (Permutation_sym Hperm)).
      apply filter_In. split; [exact Hin|]. now apply is_new_spec. }
  split; [apply new_messages_ascending|].
  split; [now apply poll_sms_sent|].
  unfold result. rewrite !poll_sms_ready by assumption.
  fold h. rewrite Hsame. fold new_messages.
  pose proof (new_messages_have_id h messages) as Hid.
  fold new_messages in Hid.
  destruct new_messages as [|n rest] eqn:En.
  - simpl. repeat split; reflexivity.
  - cbn [fst snd]. rewrite saved_configs_app, tick_sends_saved.
    split; [reflexivity|]. split; [|reflexivity].
    rewrite after_tick_mark. inversion Hid as [|? ? Hn _]; subst.
    unfold has_id in Hn. rewrite ids_of_cons.
    destruct (get_id n) as [i|]; [|discriminate].
    simpl app. unfold spec_updated_mark.
    now rewrite fold_left_max_spec.
Qed.

(** X22. After a tick that ran on the batch and did not raise, a second
    dedup step on the same batch under the mark the first tick left
    selects nothing, and a second tick on it sends nothing and saves
    nothing. *)
Theorem completed_tick_selects_nothing_again
    config messages delivered delivered' :
  tick_ready config ->
  tick_raises config messages = false ->
  let config' := fst (poll_sms config (Some messages) delivered) in
  new_messages_of (last_seen_id config') messages = [] /\
  poll_sms config' (Some messages) delivered' = (config', []).
Proof.
  intros Hready Hclean config'.
  destruct (tick_raises_false _ _ Hclean) as [Hs Ha].
  assert (Hc : config' =
               after_tick config
                 (new_messages_of (last_seen_id config) messages)).
  { unfold config'. rewrite poll_sms_ready by assumption.
    now destruct (new_messages_of _ _). }
  assert (Hnone : new_messages_of (last_seen_id config') messages = []).
  { rewrite Hc, after_tick_mark.
    set (h := last_seen_id config).
    set (new_messages := new_messages_of h messages).
    destruct new_messages as [|n rest] eqn:En; [exact En|].
    rewrite <- En. clear n rest En.
    rewrite new_messages_of_clean by exact Hs.
    rewrite select_new_filter.
    assert (Hall : forall m, In m (stable_sort messages) ->
              is_new (Some (fold_left Z.max (ids_of new_messages) (or_zero h))) m
              = false).
    { intros m Hm. unfold is_new at 1.
      destruct (get_id m) as [i|] eqn:Ei; [|reflexivity].
      apply Z.ltb_ge.
      destruct (is_new h m) eqn:Hn.
      - assert (Hin : In m new_messages).
        { unfold new_messages. rewrite new_messages_of_clean by exact Hs.
          rewrite select_new_filter. apply filter_In. now split. }
        pose proof (fold_left_max_elem (ids_of new_messages) (or_zero h)) as Hf.
        rewrite Forall_forall in Hf. apply Hf.
        now apply ids_of_In with (m := m).
      - unfold is_new in Hn. rewrite Ei in Hn.
        destruct h as [x|] eqn:Eh; [|discriminate].
        apply Z.ltb_ge in Hn.
        pose proof (fold_left_max_init (ids_of new_messages) (or_zero (Some x))).
        rewrite or_zero_some in *. lia. }
    now apply filter_none. }
  split; [exact Hnone|].
  rewrite poll_sms_ready.
  - now rewrite Hnone.
  - rewrite Hc. now apply after_tick_ready.
  - unfold tick_raises. now rewrite Hs, Hnone.
Qed.


(** X23. On a tick that runs with at least one new message and does not
    raise, whatever the outcomes [delivered] of the single sends: every
    new message that matches the keywords is sent, in order; the
    configuration is saved exactly once, after all the sends, and it is
    the same as if every send had succeeded; and the saved mark is at or
    above the id of every new message, sent, failed or passed over. *)
Theorem failed_send_does_not_halt_the_batch config messages delivered :
  tick_ready config ->
  tick_raises config messages = false ->
  new_messages_of (last_seen_id config) messages <> [] ->
  let new_messages := new_messages_of (last_seen_id config) messages in
  let result := poll_sms config (Some messages) delivered in
  sent_messages (snd result) =
    filter (forwards (keywords config)) new_messages /\
  saved_configs (snd result) = [fst result] /\
  (exists sends, snd result = sends ++ [Save (fst result)] /\
                 saved_configs sends = [] /\ ~ In Raised sends) /\
  fst result = fst (poll_sms config (Some messages) []) /\
  exists mark, last_seen_id (fst result) = Some mark /\
               Forall (fun i => i <= mark) (ids_of new_messages).
Proof.
  intros Hready Hclean Hne new_messages result.
  split; [now apply poll_sms_sent|].
  destruct (tick_raises_false _ _ Hclean) as [_ Ha].
  unfold result. rewrite !poll_sms_ready by assumption. fold new_messages.
  fold new_messages in Ha.
  destruct new_messages as [|n rest] eqn:En; [contradiction|].
  cbn [fst snd]. rewrite saved_configs_app, tick_sends_saved.
  repeat split; try reflexivity.
  - eexists. split; [reflexivity|]. split; [apply tick_sends_saved|].
    rewrite tick_sends_raised, Ha. discriminate.
  - eexists. split; [reflexivity|]. apply fold_left_max_elem.
Qed.

(** X24. On a tick that runs and does not raise, when the batch holds
    two entries of one id above the mark (or with the mark unset), both
    are among the new messages of the tick, the earlier before the later,
    and when both pass the keyword guard both are sent: entries of one id
    in one batch are not merged. *)
Theorem duplicate_ids_both_forwarded config delivered l1 m1 l2 m2 l3 i :
  tick_ready config ->
  get_id m1 = Some i ->
  get_id m2 = Some i ->
  (last_seen_id config = None \/
   exists h, last_seen_id config = Some h /\ h < i) ->
  let messages := l1 ++ m1 :: l2 ++ m2 :: l3 in
  tick_raises config messages = false ->
  let result := poll_sms config (Some messages) delivered in
  (exists p1 p2 p3,
      new_messages_of (last_seen_id config) messages
      = p1 ++ m1 :: p2 ++ m2 :: p3) /\
  (forwards (keywords config) m1 = true ->
   forwards (keywords config) m2 = true ->
   exists s1 s2 s3, sent_messages (snd result) = s1 ++ m1 :: s2 ++ m2 :: s3).
Proof.
  intros Hready E1 E2 Hq messages Hclean result.
  destruct (tick_raises_false _ _ Hclean) as [Hs Ha].
  set (h := last_seen_id config) in *.
  set (same := fun m : message => int_key m =? i).
  assert (Hn1 : is_new h m1 = true) by (apply is_new_spec; now exists i).
  assert (Hn2 : is_new h m2 = true) by (apply is_new_spec; now exists i).
  assert (Hk : forall m, get_id m = Some i -> same m = true).
  { intros m E. unfold same, int_key, sort_key. unfold get_id in E.
    destruct (msg_id m); try discriminate. injection E as ->.
    apply Z.eqb_refl. }
  pose proof (Hk m1 E1) as Hs1. pose proof (Hk m2 E2) as Hs2.
  assert (Hkeep : filter same (new_messages_of h messages) =
                  filter same (filter (is_new h) messages)).
  { rewrite new_messages_of_clean by exact Hs.
    rewrite select_new_sort. apply stable_sort_stable. }
  assert (Hnew : filter same (new_messages_of h messages) =
                 filter same (filter (is_new h) l1) ++
                 m1 :: filter same (filter (is_new h) l2) ++
                 m2 :: filter same (filter (is_new h) l3)).
  { rewrite Hkeep. unfold messages.
    rewrite !filter_app. cbn [filter]. rewrite Hn1. cbn [filter].
    rewrite Hs1, !filter_app. cbn [filter]. rewrite Hn2. cbn [filter].
    now rewrite Hs2. }
  split.
  - eapply filter_two_inv. exact Hnew.
  - intros M1 M2.
    eapply filter_two_inv with (p := same).
    unfold result. rewrite poll_sms_sent by assumption. fold h.
    rewrite filter_filter_comm, Hnew, !filter_app. cbn [filter].
    rewrite M1, filter_app. cbn [filter]. rewrite M2. reflexivity.
Qed.

End TickClaims.

(* ================================================================== *)
(** ** Trimming and splitting *)

Lemma lstrip_decomp (s : str) : exists ws, s = ws ++ lstrip s /\ blank ws.
Proof.
  induction s as [|c s [ws [E B]]]; simpl.
  - exists []. split; [reflexivity | constructor].
  - destruct (isspace c) eqn:Hc.
    + exists (c :: ws). split; [simpl; now rewrite <- E | now constructor].
    + exists []. split; [reflexivity | constructor].
Qed.

Lemma lstrip_front (s : str) : no_space_in_front (lstrip s).
Proof.
  induction s as [|c s IH]; simpl; [exact I|].
  destruct (isspace c) eqn:Hc; [exact IH | exact Hc].
Qed.

Lemma lstrip_fixed (s : str) : no_space_in_front s -> lstrip s = s.
Proof. destruct s as [|c s]; simpl; [reflexivity|]. now intros ->. Qed.

Lemma rstrip_decomp (s : str) : exists ws, s = rstrip s ++ ws /\ blank ws.
Proof.
  unfold rstrip. destruct (lstrip_decomp (rev s)) as [ws [E B]].
  exists (rev ws). split.
  - rewrite <- rev_app_distr, <- E. now rewrite rev_involutive.
  - unfold blank in *. now apply Forall_rev.
Qed.

Lemma rstrip_idem (s : str) : rstrip (rstrip s) = rstrip s.
Proof.
  unfold rstrip. rewrite rev_involutive.
  now rewrite (lstrip_fixed _ (lstrip_front (rev s))).
Qed.

Lemma rstrip_front (s : str) : no_space_in_front s -> no_space_in_front (rstrip s).
Proof.
  destruct (rstrip_decomp s) as [ws [E _]].
  destruct (rstrip s) as [|c r]; [intros; exact I|].
  rewrite E. simpl. trivial.
Qed.

(** A trimmed string has nothing left to trim. *)
Lemma strip_idem (s : str) : strip (strip s) = strip s.
Proof.
  unfold strip.
  rewrite (lstrip_fixed (rstrip (lstrip s))).
  - apply rstrip_idem.
  - apply rstrip_front, lstrip_front.
Qed.

(** Trimming removes whitespace at both ends and nothing else. *)
Lemma strip_decomp (s : str) :
  exists ws1 ws2, s = ws1 ++ strip s ++ ws2 /\ blank ws1 /\ blank ws2.
Proof.
  destruct (lstrip_decomp s) as [ws1 [E1 B1]].
  destruct (rstrip_decomp (lstrip s)) as [ws2 [E2 B2]].
  exists ws1, ws2. unfold strip. now rewrite <- E2.
Qed.

Lemma strip_substring (s : str) : substring (strip s) s.
Proof.
  destruct (strip_decomp s) as [ws1 [ws2 [E _]]]. now exists ws1, ws2.
Qed.

Lemma substring_trans (a b c : str) :
  substring a b -> substring b c -> substring a c.
Proof.
  intros [p1 [q1 ->]] [p2 [q2 ->]]. exists (p2 ++ p1), (q1 ++ q2).
  now rewrite <- !app_assoc.
Qed.

Lemma substring_In (a b : str) (c : N) : substring a b -> In c a -> In c b.
Proof.
  intros [p [q ->]] H. apply in_or_app. right. apply in_or_app. now left.
Qed.

Lemma split_not_nil (sep : N) (s : str) : split sep s <> [].
Proof.
  destruct s as [|c s]; simpl; [discriminate|].
  destruct (c =? sep)%N; [discriminate|].
  destruct (split sep s); discriminate.
Qed.

(** Joining the parts with the separator gives the string back. *)
Lemma split_join (sep : N) (s : str) : join sep (split sep s) = s.
Proof.
  induction s as [|c s IH]; simpl; [reflexivity|].
  destruct (c =? sep)%N eqn:E.
  - apply N.eqb_eq in E. subst c.
    pose proof (split_not_nil sep s) as Hn.
    destruct (split sep s) as [|p ps]; [contradiction|].
    cbn [join app]. cbn [join] in IH. now rewrite IH.
  - pose proof (split_not_nil sep s) as Hn.
    destruct (split sep s) as [|p ps]; [contradiction|].
    destruct ps as [|p' ps]; cbn [join] in *; now rewrite <- IH.
Qed.

(** No part holds the separator. *)
Lemma split_no_sep (sep : N) (s : str) :
  Forall (fun part => ~ In sep part) (split sep s).
Proof.
  induction s as [|c s IH]; simpl.
  - constructor; [intros []|constructor].
  - destruct (c =? sep)%N eqn:E.
    + constructor; [intros []|exact IH].
    + apply N.eqb_neq in E. destruct (split sep s) as [|p ps].
      * constructor; [|constructor]. intros [H|[]]. congruence.
      * inversion IH as [|? ? Hp Hps]; subst. constructor; [|exact Hps].
        intros [H|H]; [congruence | contradiction].
Qed.

Lemma join_substring (sep : N) (parts : list str) (p : str) :
  In p parts -> substring p (join sep parts).
Proof.
  induction parts as [|q parts IH]; intros H; [contradiction|].
  destruct H as [->|H].
  - destruct parts as [|q' parts]; cbn [join].
    + exists [], []. now rewrite app_nil_r.
    + now exists [], (sep :: join sep (q' :: parts)).
  - destruct parts as [|q' parts]; [contradiction|].
    destruct (IH H) as [pre [post E]].
    change (join sep (q :: q' :: parts))
      with (q ++ sep :: join sep (q' :: parts)).
    rewrite E. exists (q ++ sep :: pre), post. now rewrite <- app_assoc.
Qed.

Lemma split_substring (sep : N) (s p : str) :
  In p (split sep s) -> substring p s.
Proof.
  intros H. rewrite <- (split_join sep s) at 1. now apply join_substring.
Qed.

(** A run of the text after [replace] that holds no [new] stands in
    the text before it. *)
Lemma replace_substring (old new : N) (s p : str) :
  substring p (replace old new s) -> ~ In new p -> substring p s.
Proof.
  unfold replace. intros [pre [post E]] Hn.
  apply map_eq_app in E as [s1 [s' [-> [_ E]]]].
  apply map_eq_app in E as [s2 [s3 [-> [E _]]]].
  exists s1, s3. f_equal. f_equal. subst p.
  induction s2 as [|c s2 IH]; simpl in *; [reflexivity|].
  destruct (c =? old)%N.
  - exfalso. apply Hn. now left.
  - f_equal. apply IH. intros H. apply Hn. now right.
Qed.

Lemma replace_removes (old new : N) (s : str) :
  old <> new -> ~ In old (replace old new s).
Proof.
  unfold replace. intros Hd H. apply in_map_iff in H as [c [E _]].
  destruct (c =? old)%N eqn:Ec; [congruence|].
  apply N.eqb_neq in Ec. congruence.
Qed.

(** What [parse_keywords] keeps: every entry is non-empty, trimmed, free
    of both delimiters, and stands in the text as typed. *)
Lemma parse_keywords_entries (text : str) :
  Forall (fun k => k <> [] /\ strip k = k /\ ~ In COMMA k /\
                   ~ In FULLWIDTH_COMMA k /\ substring k text)
         (parse_keywords text).
Proof.
  unfold parse_keywords. apply Forall_forall. intros k Hk.
  apply in_map_iff in Hk as [part [<- Hp]].
  apply filter_In in Hp as [Hp Ht].
  pose proof (split_substring _ _ _ Hp) as Hsub.
  pose proof (split_no_sep COMMA (replace FULLWIDTH_COMMA COMMA text)) as Hns.
  rewrite Forall_forall in Hns. specialize (Hns part Hp).
  assert (Hk : substring (strip part) (replace FULLWIDTH_COMMA COMMA text)).
  { eapply substring_trans; [apply strip_substring | exact Hsub]. }
  assert (Hc : ~ In COMMA (strip part)).
  { intros H. apply Hns. eapply substring_In; [apply strip_substring | exact H]. }
  split; [now destruct (strip part)|]. split; [apply strip_idem|].
  split; [exact Hc|]. split.
  - intros H. apply (replace_removes FULLWIDTH_COMMA COMMA text); [discriminate|].
    eapply substring_In; [exact Hk | exact H].
  - now apply replace_substring with (old := FULLWIDTH_COMMA) (new := COMMA).
Qed.

(* ================================================================== *)
(** ** What one operation can do to the stored configuration *)

Lemma config_effect_same (c : BotConfig) (w : world) (evs : list event) :
  store w = c -> saved_configs evs = [] -> config_effect c (w, evs).
Proof.
  intros <- E. unfold config_effect. cbn [fst snd]. split; [now left|].
  split; [trivial|]. intros h Hh. exists h. split; [assumption | lia].
Qed.

Lemma config_effect_saved (c c' : BotConfig) (w : world) (evs : list event) :
  store w = c' -> saved_configs evs = [c'] ->
  (active_token_listed c -> active_token_listed c') ->
  last_seen_id c' = last_seen_id c ->
  config_effect c (w, evs).
Proof.
  intros <- E Ha Hm. unfold config_effect. cbn [fst snd].
  split; [now right|]. split; [exact Ha|].
  intros h Hh. exists h. rewrite Hm. split; [assumption | lia].
Qed.

Lemma filter_neq_In (text t : str) (tokens : list str) :
  In t (filter (fun t' => negb (eqb t' text)) tokens) <->
  In t tokens /\ t <> text.
Proof.
  rewrite filter_In, negb_true_iff, eqb_neq. tauto.
Qed.

Section ConversationFacts.
Context {builtins : PyBuiltins}.
Variable ADMIN_USER_IDS : list Z.

Lemma handle_pending_input_effect w get_chat mode text :
  config_effect (store w) (handle_pending_input w get_chat mode text).
Proof.
  destruct mode; unfold handle_pending_input, store_update, update;
    cbn [fold_left setattr].
  - (* add_sms_token *)
    destruct (truthy (strip text)); cbn [negb];
      [|now apply config_effect_same].
    apply config_effect_saved with
      (c' := setattr (setattr (store w)
               (Set_sms_tokens (if mem (strip text) (sms_tokens (store w))
                                then sms_tokens (store w)
                                else sms_tokens (store w) ++ [strip text])))
               (Set_active_sms_token (Some (strip text))));
      try reflexivity.
    intros _. unfold active_token_listed. simpl.
    destruct (mem (strip text) (sms_tokens (store w))) eqn:E.
    + now apply mem_In.
    + apply in_or_app. right. now left.
  - (* set_chat_id *)
    destruct (resolve_chat_id get_chat text) as [[]|[chat_id|]];
      try (now apply config_effect_same).
    apply config_effect_saved with
      (c' := setattr (store w) (Set_target_chat_id chat_id));
      try reflexivity. trivial.
  - (* set_keywords *)
    apply config_effect_saved with
      (c' := setattr (store w) (Set_keywords (parse_keywords text)));
      try reflexivity. trivial.
  - (* select_sms_token *)
    destruct (eqb text LABEL_RETURN); [now apply config_effect_same|].
    destruct (mem text (sms_tokens (store w))) eqn:E; cbn [negb];
      [|now apply config_effect_same].
    apply config_effect_saved with
      (c' := setattr (store w) (Set_active_sms_token (Some text)));
      try reflexivity.
    intros _. unfold active_token_listed. simpl. now apply mem_In.
  - (* delete_sms_token *)
    destruct (eqb text LABEL_RETURN); [now apply config_effect_same|].
    destruct (mem text (sms_tokens (store w))) eqn:E; cbn [negb];
      [|now apply config_effect_same].
    eapply config_effect_saved; try reflexivity.
    unfold active_token_listed. simpl.
    destruct (active_sms_token (store w)) as [a|]; [|trivial].
    intros Ha. destruct (eqb a text) eqn:Ea.
    + destruct (filter _ (sms_tokens (store w))); [trivial | now left].
    + apply filter_neq_In. split; [assumption | now apply eqb_neq].
Qed.

Lemma menu_handler_effect w text handler :
  handlers_get handlers text = Some handler ->
  config_effect (store w) (handler w).
Proof.
  unfold handlers. cbn [handlers_get].
  repeat match goal with
         | |- context [eqb text ?l] => destruct (eqb text l)
         end;
    intros E; try discriminate; injection E as <-.
  - now apply config_effect_same.
  - unfold choose_sms_token. destruct (sms_tokens (store w));
      now apply config_effect_same.
  - unfold delete_sms_token. destruct (sms_tokens (store w));
      now apply config_effect_same.
  - now apply config_effect_same.
  - now apply config_effect_same.
  - unfold start_forwarding.
    destruct (active_sms_token (store w)) as [[|t token]|];
      try (now apply config_effect_same).
    destruct (target_chat_id (store w)) as [chat_id|];
      [|now apply config_effect_same].
    destruct (chat_id =? 0); [now apply config_effect_same|].
    destruct (poll_job w) as [existing|]; [|now apply config_effect_same].
    unfold store_update, update. cbn [fold_left].
    apply config_effect_saved with
      (c' := setattr (store w) (Set_forwarding_enabled true));
      try reflexivity; [|trivial].
    destruct existing; reflexivity.
  - unfold stop_forwarding.
    destruct (poll_job w) as [existing|]; [|now apply config_effect_same].
    unfold store_update, update. cbn [fold_left].
    apply config_effect_saved with
      (c' := setattr (store w) (Set_forwarding_enabled false));
      try reflexivity; [|trivial].
    destruct existing; reflexivity.
  - now apply config_effect_same.
  - now apply config_effect_same.
Qed.

Lemma handle_message_effect w u get_chat :
  config_effect (store w) (handle_message ADMIN_USER_IDS w u get_chat).
Proof.
  unfold handle_message.
  destruct (message_text u) as [raw|]; [|now apply config_effect_same].
  destruct (is_authorized ADMIN_USER_IDS u); cbn [negb].
  - destruct (user_mode w) as [mode|].
    + apply handle_pending_input_effect.
    + destruct (handlers_get handlers (strip raw)) as [handler|] eqn:E.
      * now apply menu_handler_effect with (text := strip raw).
      * now apply config_effect_same.
  - apply config_effect_same; [reflexivity|].
    now destruct (effective_chat u).
Qed.

Lemma poll_sms_effect config fetched delivered :
  config_effect config
    (let '(c, evs) := poll_sms config fetched delivered in
     ({| store := c; user_mode := None; poll_job := None |}, evs)).
Proof.
  assert (Hsame : forall evs, saved_configs evs = [] ->
            config_effect config
              ({| store := config; user_mode := None; poll_job := None |}, evs)).
  { intros evs E. now apply config_effect_same. }
  destruct (poll_sms_cases config fetched delivered)
    as [E | [[_ [_ E]] | [[_ [ms [_ [_ E]]]]
       | [[_ [ms [n [rest [_ [_ [_ [_ E]]]]]]]]
         | [_ [ms [n [rest [_ [_ [_ E]]]]]]]]]]]; rewrite E.
  - now apply Hsame.
  - now apply Hsame.
  - now apply Hsame.
  - apply Hsame. apply tick_sends_saved.
  - unfold config_effect. cbn [fst snd store].
    rewrite saved_configs_app, tick_sends_saved.
    split; [now right|]. split; [unfold after_tick; trivial|].
    intros h Hh. rewrite after_tick_mark. eexists. split; [reflexivity|].
    rewrite Hh, or_zero_some. apply fold_left_max_init.
Qed.

Lemma step_effect w o :
  config_effect (store w) (step ADMIN_USER_IDS w o).
Proof.
  destruct o as [u | u get_chat | fetched delivered]; cbn [step].
  - unfold handle_start. destruct (is_authorized ADMIN_USER_IDS u); cbn [negb].
    + now apply config_effect_same.
    + apply config_effect_same; [reflexivity|].
      now destruct (effective_chat u).
  - apply handle_message_effect.
  - destruct (poll_job w) as [[|]|]; try (now apply config_effect_same).
    pose proof (poll_sms_effect (store w) fetched delivered) as H.
    destruct (poll_sms (store w) fetched delivered) as [c evs]. exact H.
Qed.

End ConversationFacts.

Lemma last_cons (a d : Z) (l : list Z) : last (a :: l) d = last l a.
Proof.
  revert a d. induction l as [|b l IH]; intros a d; [reflexivity|].
  change (last (a :: b :: l) d) with (last (b :: l) d).
  now rewrite !IH.
Qed.

Lemma ascii_lower_law :
  forall s, Forall is_ascii s -> @lower ascii_builtins s = List.map ascii_lower s.
Proof. reflexivity. Qed.

(* ================================================================== *)
(** ** The conversation: cancelling, keywords, tokens *)

Section ConversationClaims.
Context {builtins : PyBuiltins}.
Variable ADMIN_USER_IDS : list Z.

(** C4, as amended. While the pending action is the choice of a token
    to select or to delete, an authorized operator's message that is the
    return-to-menu label (after trimming) clears the pending action and
    leaves the configuration as it was: nothing is saved, and the job
    queue is untouched. *)
Theorem return_to_menu_cancels_token_choice w u get_chat raw mode :
  is_authorized ADMIN_USER_IDS u = true ->
  message_text u = Some raw ->
  strip raw = LABEL_RETURN ->
  user_mode w = Some mode ->
  mode = M_select_sms_token \/ mode = M_delete_sms_token ->
  let r := handle_message ADMIN_USER_IDS w u get_chat in
  user_mode (fst r) = None /\
  store (fst r) = store w /\
  poll_job (fst r) = poll_job w /\
  saved_configs (snd r) = [].
Proof.
  intros Hauth Hmsg Hstrip Hmode Hm r. unfold r, handle_message.
  rewrite Hmsg, Hauth, Hstrip, Hmode. cbn [negb].
  destruct Hm as [-> | ->]; unfold handle_pending_input;
    rewrite eqb_refl; repeat split; reflexivity.
Qed.


(** C9, as amended. Deleting, by a text that is a listed token other
    than the return-to-menu label, removes that token from the list and
    keeps the others in order; if it was the active token, the active
    token becomes the first remaining token, or unset when none remains;
    otherwise the active token stays; the pending action is cleared and
    the result is saved once. *)
Theorem delete_token_reassigns_active w get_chat text :
  In text (sms_tokens (store w)) ->
  text <> LABEL_RETURN ->
  let r := handle_pending_input w get_chat M_delete_sms_token text in
  let c' := store (fst r) in
  sms_tokens c' = filter (fun t => negb (eqb t text)) (sms_tokens (store w)) /\
  ~ In text (sms_tokens c') /\
  (forall t, t <> text -> (In t (sms_tokens c') <-> In t (sms_tokens (store w)))) /\
  (active_sms_token (store w) = Some text ->
   active_sms_token c' = hd_error (sms_tokens c')) /\
  (active_sms_token (store w) <> Some text ->
   active_sms_token c' = active_sms_token (store w)) /\
  user_mode (fst r) = None /\
  saved_configs (snd r) = [c'].
Proof.
  intros Hin Hret r c'. unfold c', r, handle_pending_input.
  apply eqb_neq in Hret. rewrite Hret.
  apply mem_In in Hin. rewrite Hin. cbn [negb].
  unfold store_update, update. cbn [fold_left fst snd store with_mode with_store].
  simpl sms_tokens. simpl active_sms_token.
  split; [reflexivity|]. split.
  { intros H. apply filter_neq_In in H. tauto. }
  split.
  { intros t Ht. rewrite filter_neq_In. tauto. }
  split.
  { intros ->. rewrite eqb_refl. now destruct (filter _ _). }
  split.
  { intros Hne. destruct (active_sms_token (store w)) as [a|]; [|reflexivity].
    destruct (eqb a text) eqn:E; [|reflexivity].
    apply eqb_eq in E. congruence. }
  split; reflexivity.
Qed.

(** C8. Every operation (a command, an operator's message in any
    state of the conversation, a tick) keeps the active token unset or
    listed; so along every run from a configuration where this holds, the
    configuration in the store after the run and every configuration
    saved on the way have the active token unset or listed. *)
Theorem active_token_stays_listed w ops :
  active_token_listed (store w) ->
  (forall o, active_token_listed (store (fst (step ADMIN_USER_IDS w o)))) /\
  active_token_listed (store (fst (run ADMIN_USER_IDS w ops))) /\
  Forall active_token_listed (saved_configs (snd (run ADMIN_USER_IDS w ops))).
Proof.
  intros Hinv. split.
  { intros o. now apply (step_effect ADMIN_USER_IDS w o). }
  revert w Hinv. induction ops as [|o ops IH]; intros w Hinv.
  - split; [exact Hinv | constructor].
  - cbn [run].
    pose proof (step_effect ADMIN_USER_IDS w o) as [Hsave [Hact _]].
    specialize (Hact Hinv).
    destruct (step ADMIN_USER_IDS w o) as [w1 evs1]. cbn [fst snd] in *.
    destruct (IH w1 Hact) as [IH1 IH2].
    destruct (run ADMIN_USER_IDS w1 ops) as [w2 evs2]. cbn [fst snd] in *.
    split; [exact IH1|]. rewrite saved_configs_app. apply Forall_app.
    split; [|exact IH2].
    destruct Hsave as [[-> _] | ->]; [constructor|].
    constructor; [exact Hact | constructor].
Qed.

(** C7. Along every run from a configuration whose mark is set, every
    saved configuration has its mark set, the marks saved one after
    another never go down, the first is at or above the mark at the
    start, and the store ends on the last of them. *)
Theorem mark_never_decreases w ops h0 :
  last_seen_id (store w) = Some h0 ->
  let r := run ADMIN_USER_IDS w ops in
  exists marks,
    List.map last_seen_id (saved_configs (snd r)) = List.map Some marks /\
    StronglySorted Z.le (h0 :: marks) /\
    last_seen_id (store (fst r)) = Some (last marks h0).
Proof.
  revert w h0. induction ops as [|o ops IH]; intros w h0 Hh; cbn zeta.
  - exists []. split; [reflexivity|]. split; [|exact Hh].
    constructor; constructor.
  - cbn [run].
    pose proof (step_effect ADMIN_USER_IDS w o) as [Hsave [_ Hmark]].
    destruct (Hmark h0 Hh) as [h1 [Hh1 Hle]].
    destruct (step ADMIN_USER_IDS w o) as [w1 evs1]. cbn [fst snd] in *.
    destruct Hsave as [[Hnone Hstore] | Hone].
    + rewrite Hstore, Hh in Hh1. injection Hh1 as <-.
      rewrite <- Hstore in Hh. specialize (IH w1 h0 Hh). cbn zeta in IH.
      destruct IH as [marks [Hm [Hs Hf]]].
      destruct (run ADMIN_USER_IDS w1 ops) as [w2 evs2]. cbn [fst snd] in *.
      exists marks. rewrite saved_configs_app, Hnone. now repeat split.
    + specialize (IH w1 h1 Hh1). cbn zeta in IH.
      destruct IH as [marks [Hm [Hs Hf]]].
      destruct (run ADMIN_USER_IDS w1 ops) as [w2 evs2]. cbn [fst snd] in *.
      exists (h1 :: marks). rewrite saved_configs_app, Hone.
      cbn [List.map app]. rewrite Hm, Hh1, last_cons.
      split; [reflexivity|]. split; [|exact Hf].
      constructor; [exact Hs|]. constructor; [exact Hle|].
      inversion Hs as [|? ? _ Hall]; subst.
      eapply Forall_impl; [|exact Hall]. intros; lia.
Qed.

End ConversationClaims.

(* ================================================================== *)
(** ** The claims on concrete inputs *)

(** C1 as stated fails in two ways. When the mark is unset and the
    qualifying ids are negative, the batch with the single id -5 leaves
    the mark 0, where max(h, max id) is -5. And a message whose id is
    null is not dropped when the batch has another message: the sort
    raises, nothing is selected, sent or saved, where the batch without
    that message has 101 sent and the mark 101 saved. *)
Lemma unset_mark_counts_as_zero :
  let config := running_config None [] in
  let messages := [sms (-5) "hi"] in
  let new_ids := ids_of (new_messages_of (last_seen_id config) messages) in
  let config' := running_config (Some 100) [] in
  let messages' := [sms_null_id "x"; sms 101 "a"] in
  (new_ids = [-5] /\
   spec_updated_mark (last_seen_id config) new_ids = Some (-5) /\
   last_seen_id (fst (@poll_sms ascii_builtins config (Some messages) []))
   = Some 0 /\
   last_seen_id (fst (@poll_sms ascii_builtins config (Some messages) []))
   <> spec_updated_mark (last_seen_id config) new_ids) /\
  (@tick_raises ascii_builtins config' messages' = true /\
   @poll_sms ascii_builtins config' (Some messages') [] = (config', [Raised]) /\
   filter has_id messages' = [sms 101 "a"] /\
   @poll_sms ascii_builtins config' (Some (filter has_id messages')) []
   = (after_tick config' [sms 101 "a"],
      [SendSms 42 (sms 101 "a") true; Save (after_tick config' [sms 101 "a"])]) /\
   last_seen_id (after_tick config' [sms 101 "a"]) = Some 101).
Proof.
  cbv zeta. repeat split; try reflexivity. vm_compute. discriminate.
Qed.

Lemma dedup_step_selects_and_marks_witness :
  tick_ready (running_config (Some 100) []) /\
  @tick_raises ascii_builtins (running_config (Some 100) []) batch_101_99_103
  = false /\
  last_seen_id
    (fst (@poll_sms ascii_builtins (running_config (Some 100) [])
            (Some batch_101_99_103) []))
  = Some 103.
Proof.
  assert (R : tick_ready (running_config (Some 100) [])) by prove_ready.
  split; [exact R|]. split; [reflexivity|].
  destruct (@dedup_step_selects_and_marks ascii_builtins
              (running_config (Some 100) []) batch_101_99_103 [] R eq_refl)
    as (_ & _ & _ & _ & _ & H & _).
  rewrite H. reflexivity.
Defined.

(** C2 fails on a tick that raises. With the keyword "a" and the mark
    100, on the batch of message 101 with the content "a" and message
    102 with a null content, the tick sends 101 and raises at 102:
    nothing is saved and the mark stays 100. The dedup step on the same
    batch under the mark the tick left selects both messages again, and
    a second tick on the batch sends 101 again. *)
Lemma aborted_tick_selects_again :
  let config := running_config (Some 100) [lit "a"] in
  let messages := [sms 101 "a"; sms_null_content 102] in
  let result := @poll_sms ascii_builtins config (Some messages) [] in
  result = (config, [SendSms 42 (sms 101 "a") true; Raised]) /\
  last_seen_id (fst result) = Some 100 /\
  saved_configs (snd result) = [] /\
  new_messages_of (last_seen_id (fst result)) messages = messages /\
  sent_messages
    (snd (@poll_sms ascii_builtins (fst result) (Some messages) []))
  = [sms 101 "a"].
Proof. cbv zeta. repeat split; reflexivity. Qed.

(** C6 fails on a tick that raises. With the keyword "a" and the mark
    100, on the batch of the messages 101 and 103 with the content "a"
    and, between them, message 102 with a null content, where the send
    of 101 fails: all three messages are new and 103 passes the keyword
    guard, but the tick raises at 102, so that 103 is not attempted,
    nothing is saved, and the mark stays 100, below the failed 101. *)
Lemma null_content_halts_the_batch :
  let config := running_config (Some 100) [lit "a"] in
  let messages := [sms 101 "a"; sms_null_content 102; sms 103 "a"] in
  let result := @poll_sms ascii_builtins config (Some messages) [false] in
  new_messages_of (last_seen_id config) messages = messages /\
  @forwards ascii_builtins (keywords config) (sms 103 "a") = true /\
  result = (config, [SendSms 42 (sms 101 "a") false; Raised]) /\
  sent_messages (snd result) = [sms 101 "a"] /\
  saved_configs (snd result) = [] /\
  last_seen_id (fst result) = Some 100.
Proof. cbv zeta. repeat split; reflexivity. Qed.

(** C10 fails on a batch on which the sort raises. With the mark 100
    and no keywords, on the batch of two messages of id 105 with a
    message of null id between them, the sort raises: neither entry of
    105 is among the new messages, nothing is sent and nothing saved,
    where the batch without the null-id message has both entries sent. *)
Lemma null_id_loses_both_duplicates :
  let config := running_config (Some 100) [] in
  let messages := [sms 105 "first"; sms_null_id "x"; sms 105 "second"] in
  let result := @poll_sms ascii_builtins config (Some messages) [] in
  sort_by_id messages = None /\
  new_messages_of (last_seen_id config) messages = [] /\
  result = (config, [Raised]) /\
  sent_messages (snd result) = [] /\
  sent_messages
    (snd (@poll_sms ascii_builtins config
            (Some [sms 105 "first"; sms 105 "second"]) []))
  = [sms 105 "first"; sms 105 "second"].
Proof. cbv zeta. repeat split; reflexivity. Qed.

Lemma completed_tick_selects_nothing_again_witness :
  tick_ready (running_config (Some 100) []) /\
  @tick_raises ascii_builtins (running_config (Some 100) []) batch_101_99_103
  = false /\
  let config' :=
    fst (@poll_sms ascii_builtins (running_config (Some 100) [])
           (Some batch_101_99_103) [false]) in
  new_messages_of (last_seen_id config') batch_101_99_103 = [] /\
  @poll_sms ascii_builtins config' (Some batch_101_99_103) [] = (config', []).
Proof.
  split; [prove_ready|]. split; [reflexivity|].
  apply (@completed_tick_selects_nothing_again ascii_builtins);
    [prove_ready | reflexivity].
Defined.

Lemma failed_send_does_not_halt_the_batch_witness :
  tick_ready (running_config (Some 100) [lit "Code"]) /\
  @tick_raises ascii_builtins (running_config (Some 100) [lit "Code"])
    batch_codes = false /\
  new_messages_of (Some 100) batch_codes <> [] /\
  let result :=
    @poll_sms ascii_builtins (running_config (Some 100) [lit "Code"])
      (Some batch_codes) [false; true] in
  sent_messages (snd result) = [sms 101 "your CODE 1"; sms 103 "code 3"] /\
  saved_configs (snd result) = [fst result].
Proof.
  assert (R : tick_ready (running_config (Some 100) [lit "Code"]))
    by prove_ready.
  assert (N : new_messages_of
                (last_seen_id (running_config (Some 100) [lit "Code"]))
                batch_codes <> [])
    by (vm_compute; discriminate).
  split; [exact R|]. split; [reflexivity|]. split; [exact N|].
  destruct (@failed_send_does_not_halt_the_batch ascii_builtins
              (running_config (Some 100) [lit "Code"]) batch_codes
              [false; true] R eq_refl N) as (Hs & Hc & _).
  split; [rewrite Hs; reflexivity | exact Hc].
Defined.

Lemma duplicate_ids_both_forwarded_witness :
  tick_ready (running_config (Some 100) []) /\
  get_id (sms 105 "first") = Some 105 /\
  get_id (sms 105 "second") = Some 105 /\
  (last_seen_id (running_config (Some 100) []) = None \/
   exists h, last_seen_id (running_config (Some 100) []) = Some h /\ h < 105) /\
  @tick_raises ascii_builtins (running_config (Some 100) [])
    ([sms 107 "z"] ++ sms 105 "first" ::
     [sms 101 "x"] ++ sms 105 "second" :: []) = false /\
  exists p1 p2 p3,
    new_messages_of (Some 100)
      ([sms 107 "z"] ++ sms 105 "first" ::
       [sms 101 "x"] ++ sms 105 "second" :: [])
    = p1 ++ sms 105 "first" :: p2 ++ sms 105 "second" :: p3.
Proof.
  assert (R : tick_ready (running_config (Some 100) [])) by prove_ready.
  assert (Q : last_seen_id (running_config (Some 100) []) = None \/
              exists h, last_seen_id (running_config (Some 100) []) = Some h /\
                        h < 105).
  { right. exists 100. split; [reflexivity | lia]. }
  split; [exact R|]. split; [reflexivity|]. split; [reflexivity|].
  split; [exact Q|]. split; [reflexivity|].
  exact (proj1 (@duplicate_ids_both_forwarded ascii_builtins
                  (running_config (Some 100) []) []
                  [sms 107 "z"] (sms 105 "first") [sms 101 "x"]
                  (sms 105 "second") [] 105 R eq_refl eq_refl Q eq_refl)).
Defined.

(** C4 as stated fails for the pending actions that take free text:
    while a token is awaited, the return-to-menu label is added as a token
    and made active; while keywords are awaited, it is stored as the one
    keyword. *)
Lemma return_label_is_taken_as_input :
  let add :=
    @handle_message ascii_builtins [] (awaiting config_AB M_add_sms_token)
      (text_update LABEL_RETURN) None in
  let kw :=
    @handle_message ascii_builtins [] (awaiting config_AB M_set_keywords)
      (text_update LABEL_RETURN) None in
  store (fst add) <> config_AB /\
  sms_tokens (store (fst add)) = [lit "A"; lit "B"; LABEL_RETURN] /\
  active_sms_token (store (fst add)) = Some LABEL_RETURN /\
  saved_configs (snd add) = [store (fst add)] /\
  store (fst kw) <> config_AB /\
  keywords (store (fst kw)) = [LABEL_RETURN].
Proof.
  cbv zeta. repeat split; try reflexivity; vm_compute; discriminate.
Qed.

Lemma return_to_menu_cancels_token_choice_witness :
  @is_authorized [7] (text_update (32%N :: LABEL_RETURN ++ [32%N])) = true /\
  message_text (text_update (32%N :: LABEL_RETURN ++ [32%N]))
  = Some (32%N :: LABEL_RETURN ++ [32%N]) /\
  strip (32%N :: LABEL_RETURN ++ [32%N]) = LABEL_RETURN /\
  user_mode (awaiting config_AB M_delete_sms_token) = Some M_delete_sms_token /\
  (M_delete_sms_token = M_select_sms_token \/
   M_delete_sms_token = M_delete_sms_token) /\
  let r :=
    @handle_message ascii_builtins [7] (awaiting config_AB M_delete_sms_token)
      (text_update (32%N :: LABEL_RETURN ++ [32%N])) None in
  user_mode (fst r) = None /\
  store (fst r) = config_AB /\
  poll_job (fst r) = Some false /\
  saved_configs (snd r) = [].
Proof.
  split; [reflexivity|]. split; [reflexivity|]. split; [reflexivity|].
  split; [reflexivity|]. split; [right; reflexivity|].
  apply (@return_to_menu_cancels_token_choice ascii_builtins [7]
           (awaiting config_AB M_delete_sms_token)
           (text_update (32%N :: LABEL_RETURN ++ [32%N])) None
           (32%N :: LABEL_RETURN ++ [32%N]) M_delete_sms_token);
    try reflexivity.
  right; reflexivity.
Defined.



(** C9 as stated fails for one listed token: when the
    return-to-menu label itself is listed, the text that matches it
    cancels the deletion, and the token stays listed and active. *)
Lemma listed_return_label_is_not_deleted :
  let r :=
    @handle_pending_input ascii_builtins
      (awaiting config_return_listed M_delete_sms_token) None
      M_delete_sms_token LABEL_RETURN in
  In LABEL_RETURN (sms_tokens config_return_listed) /\
  store (fst r) = config_return_listed /\
  In LABEL_RETURN (sms_tokens (store (fst r))) /\
  active_sms_token (store (fst r)) = Some LABEL_RETURN /\
  saved_configs (snd r) = [].
Proof.
  cbv zeta. repeat split; try reflexivity; right; left; reflexivity.
Qed.

Lemma delete_token_reassigns_active_witness :
  In (lit "A") (sms_tokens (store (awaiting config_AB M_delete_sms_token))) /\
  lit "A" <> LABEL_RETURN /\
  let r1 :=
    @handle_pending_input ascii_builtins
      (awaiting config_AB M_delete_sms_token) None M_delete_sms_token
      (lit "A") in
  active_sms_token (store (fst r1)) = Some (lit "B") /\
  sms_tokens (store (fst r1)) = [lit "B"] /\
  In (lit "B") (sms_tokens (store (fst r1))) /\
  lit "B" <> LABEL_RETURN /\
  let r2 :=
    @handle_pending_input ascii_builtins
      (with_mode (fst r1) (Some M_delete_sms_token)) None M_delete_sms_token
      (lit "B") in
  active_sms_token (store (fst r2)) = None /\
  sms_tokens (store (fst r2)) = [].
Proof.
  assert (I1 : In (lit "A")
                 (sms_tokens (store (awaiting config_AB M_delete_sms_token))))
    by (left; reflexivity).
  assert (N1 : lit "A" <> LABEL_RETURN) by discriminate.
  split; [exact I1|]. split; [exact N1|].
  destruct (@delete_token_reassigns_active ascii_builtins
              (awaiting config_AB M_delete_sms_token) None (lit "A") I1 N1)
    as (T1 & _ & _ & A1 & _).
  cbv zeta. rewrite (A1 eq_refl), T1.
  split; [reflexivity|]. split; [reflexivity|].
  assert (I2 : In (lit "B")
                 (sms_tokens
                    (store
                       (with_mode
                          (fst (@handle_pending_input ascii_builtins
                                  (awaiting config_AB M_delete_sms_token) None
                                  M_delete_sms_token (lit "A")))
                          (Some M_delete_sms_token)))))
    by (left; reflexivity).
  assert (N2 : lit "B" <> LABEL_RETURN) by discriminate.
  split; [left; reflexivity|]. split; [exact N2|].
  destruct (@delete_token_reassigns_active ascii_builtins _ None (lit "B") I2 N2)
    as (T2 & _ & _ & A2 & _).
  rewrite (A2 eq_refl), T2. split; reflexivity.
Defined.

Lemma active_token_stays_listed_witness :
  active_token_listed (store (running_world (Some 100) [])) /\
  active_token_listed
    (store (fst (@run ascii_builtins [] (running_world (Some 100) [])
                   example_ops))) /\
  Forall active_token_listed
    (saved_configs (snd (@run ascii_builtins [] (running_world (Some 100) [])
                           example_ops))).
Proof.
  assert (A : active_token_listed (store (running_world (Some 100) [])))
    by (left; reflexivity).
  split; [exact A|].
  exact (proj2 (@active_token_stays_listed ascii_builtins []
                  (running_world (Some 100) []) example_ops A)).
Defined.

Lemma mark_never_decreases_witness :
  last_seen_id (store (running_world (Some 100) [])) = Some 100 /\
  let r := @run ascii_builtins [] (running_world (Some 100) []) example_ops in
  exists marks,
    List.map last_seen_id (saved_configs (snd r)) = List.map Some marks /\
    StronglySorted Z.le (100 :: marks) /\
    last_seen_id (store (fst r)) = Some (last marks 100).
Proof.
  split; [reflexivity|].
  apply (@mark_never_decreases ascii_builtins []
           (running_world (Some 100) []) example_ops 100).
  reflexivity.
Defined.

(** The run of the example: the marks saved by its ticks, and the
    tokens at its end. *)
Example example_run_marks :
  let r := @run ascii_builtins [] (running_world (Some 100) []) example_ops in
  List.map last_seen_id (saved_configs (snd r))
  = List.map Some [103; 103; 103; 103; 104; 104] /\
  sms_tokens (store (fst r)) = [] /\
  active_sms_token (store (fst r)) = None.
Proof. vm_compute. repeat split; reflexivity. Qed.

(** The deletion of both tokens through the menu: the button, the
    token "A", the button again, the token "B". *)
Example delete_both_tokens_through_menu :
  let r :=
    @run ascii_builtins [] (menu_root config_AB)
      [ Op_message (text_update LABEL_DELETE_TOKEN) None;
        Op_message (text_update (lit "A")) None;
        Op_message (text_update LABEL_DELETE_TOKEN) None;
        Op_message (text_update (lit " B ")) None ] in
  List.map active_sms_token (saved_configs (snd r)) = [Some (lit "B"); None] /\
  sms_tokens (store (fst r)) = [] /\
  user_mode (fst r) = None.
Proof. vm_compute. repeat split; reflexivity. Qed.

(** The scenario of the mark: under the mark 100 the batch with the ids
    101, 99 and 103 gives the new messages 101 and 103, in this order,
    and the mark 103. *)
Example scenario_mark_100 :
  let r :=
    @poll_sms ascii_builtins (running_config (Some 100) [])
      (Some [sms 101 "a"; sms 99 "b"; sms 103 "c"]) [] in
  ids_of (sent_messages (snd r)) = [101; 103] /\
  last_seen_id (fst r) = Some 103.
Proof. vm_compute. split; reflexivity. Qed.

(* ================================================================== *)
(** ** More on the tick: what it leaves alone, whom it sends to *)

Lemma StronglySorted_app_le (l1 l2 : list Z) :
  StronglySorted Z.le l1 -> StronglySorted Z.le l2 ->
  (forall a b, In a l1 -> In b l2 -> a <= b) ->
  StronglySorted Z.le (l1 ++ l2).
Proof.
  intros H1 H2 H. induction H1 as [|a l1 Hs IH Ha]; simpl; [exact H2|].
  constructor.
  - apply IH. intros x y Hx Hy. apply H; [now right | exact Hy].
  - apply Forall_app. split; [exact Ha|].
    apply Forall_forall. intros b Hb. apply H; [now left | exact Hb].
Qed.

Lemma ids_of_app (a b : list message) : ids_of (a ++ b) = ids_of a ++ ids_of b.
Proof. unfold ids_of. apply flat_map_app. Qed.

Lemma ids_of_select_new_above (h x : Z) (l : list message) :
  In x (ids_of (select_new (Some h) l)) -> h < x.
Proof.
  rewrite select_new_filter. unfold ids_of. rewrite in_flat_map.
  intros [m [Hm Hx]]. apply filter_In in Hm as [_ Hn].
  unfold is_new in Hn. destruct (get_id m) as [i|]; [|contradiction].
  destruct Hx as [<-|[]]. now apply Z.ltb_lt.
Qed.

Section TickMore.
Context {builtins : PyBuiltins}.

Lemma forward_loop_events kws chat l ls d :
  Forall (fun e => e = Raised \/
                   exists m ok, e = SendSms chat m ok /\ In m l)
         (snd (forward_loop kws chat l ls d)).
Proof.
  revert ls d. induction l as [|m l IH]; intros ls d; [constructor|].
  assert (Hrest : forall ls' d',
            Forall (fun e => e = Raised \/
                      exists m' ok, e = SendSms chat m' ok /\ In m' (m :: l))
                   (snd (forward_loop kws chat l ls' d'))).
  { intros ls' d'. eapply Forall_impl; [|apply IH].
    intros e [->|[m' [ok [-> Hin]]]]; [now left|].
    right. exists m', ok. split; [reflexivity | now right]. }
  rewrite forward_loop_step.
  destruct (aborts kws m); [constructor; [now left | constructor]|].
  cbv zeta. destruct (sends kws m); cbn [snd]; [|apply Hrest].
  constructor; [|apply Hrest].
  right. exists m, (hd true d). split; [reflexivity | now left].
Qed.

Lemma new_messages_of_In (h : option Z) (l : list message) (m : message) :
  In m (new_messages_of h l) -> In m l /\ is_new h m = true.
Proof.
  destruct (new_messages_of_filter h l) as [E|E]; rewrite E;
    [contradiction|].
  intros Hin. apply (Permutation_in _ (stable_sort_perm _)) in Hin.
  now apply filter_In in Hin.
Qed.

(** X1. Whatever the configuration, the fetch and the outcomes of the
    sends, a tick leaves every field of the configuration but the mark as
    it was. *)
Theorem tick_changes_only_the_mark config fetched delivered :
  let config' := fst (poll_sms config fetched delivered) in
  sms_tokens config' = sms_tokens config /\
  active_sms_token config' = active_sms_token config /\
  target_chat_id config' = target_chat_id config /\
  keywords config' = keywords config /\
  poll_interval config' = poll_interval config /\
  forwarding_enabled config' = forwarding_enabled config.
Proof.
  cbv zeta.
  destruct (poll_sms_cases config fetched delivered)
    as [E | [(_ & _ & E) | [(_ & ms & _ & _ & E)
       | [(_ & ms & n & rest & _ & _ & _ & _ & E)
         | (_ & ms & n & rest & _ & _ & _ & E)]]]];
    rewrite E; cbn [fst after_tick setattr]; repeat split; reflexivity.
Qed.

(** X2. A tick sends or saves only when forwarding is enabled, a
    non-empty token is active, a non-zero destination is set, the fetch
    returned a batch, and some message of the batch is new; in every
    other case the configuration is exactly as before. *)
Theorem tick_acts_only_when_ready_and_new config fetched delivered :
  let result := poll_sms config fetched delivered in
  (sent_messages (snd result) <> [] \/ saved_configs (snd result) <> [] \/
   fst result <> config) ->
  tick_ready config /\
  exists messages,
    fetched = Some messages /\
    sort_by_id messages <> None /\
    new_messages_of (last_seen_id config) messages <> [].
Proof.
  cbv zeta.
  assert (Hsorted : forall messages,
            new_messages_of (last_seen_id config) messages <> [] ->
            sort_by_id messages <> None).
  { intros messages Hne Hnone. apply Hne. unfold new_messages_of.
    now rewrite Hnone. }
  destruct (poll_sms_cases config fetched delivered)
    as [E | [(_ & _ & E) | [(_ & ms & _ & _ & E)
       | [(R & ms & n & rest & F & _ & S & _ & E)
         | (R & ms & n & rest & F & _ & S & E)]]]];
    rewrite E; cbn [fst snd].
  - intros [H | [H | H]]; now contradiction H.
  - intros [H | [H | H]]; now contradiction H.
  - intros [H | [H | H]]; now contradiction H.
  - intros _. split; [exact R|]. exists ms. split; [exact F|].
    assert (Hne : new_messages_of (last_seen_id config) ms <> [])
      by (rewrite S; discriminate).
    split; [now apply Hsorted | exact Hne].
  - intros _. split; [exact R|]. exists ms. split; [exact F|].
    assert (Hne : new_messages_of (last_seen_id config) ms <> [])
      by (rewrite S; discriminate).
    split; [now apply Hsorted | exact Hne].
Qed.

(** X3. Every event of a tick is a send to the configured destination
    of a message of the fetched batch that is new under the mark, or the
    one save of the configuration the tick leaves, or the note that the
    fetch failed, or the exception that ends a tick on a batch on which
    it raises, which leaves the configuration as it was: a tick sends to
    no other chat and sends nothing that was not fetched. *)
Theorem tick_sends_only_fetched_to_target config fetched delivered :
  let result := poll_sms config fetched delivered in
  Forall (tick_event_ok config fetched (fst result)) (snd result).
Proof.
  cbv zeta.
  assert (Hsends : forall messages n rest c',
            tick_ready config -> fetched = Some messages ->
            new_messages_of (last_seen_id config) messages = n :: rest ->
            (In Raised (tick_sends config (n :: rest) delivered) ->
             tick_raises config messages = true /\ c' = config) ->
            Forall (tick_event_ok config fetched c')
                   (tick_sends config (n :: rest) delivered)).
  { intros messages n rest c' R F S Hr. apply Forall_forall. intros e He.
    pose proof (forward_loop_events (List.map lower (keywords config))
                  (chat_of config) (n :: rest)
                  (or_zero (last_seen_id config)) delivered) as Hev.
    rewrite Forall_forall in Hev. destruct (Hev e He) as [->|[m [ok [-> Hin]]]].
    - cbn [tick_event_ok]. exists messages. split; [exact F|]. now apply Hr.
    - destruct R as (_ & _ & chat_id & Hc & _).
      unfold tick_event_ok, chat_of. rewrite Hc. split; [reflexivity|].
      exists messages. split; [exact F|]. rewrite <- S in Hin.
      now apply new_messages_of_In in Hin. }
  destruct (poll_sms_cases config fetched delivered)
    as [E | [(_ & F & E) | [(_ & ms & F & Hs & E)
       | [(R & ms & n & rest & F & Hs & S & Ha & E)
         | (R & ms & n & rest & F & Hc & S & E)]]]];
    rewrite E; cbn [fst snd].
  - constructor.
  - constructor; [exact F | constructor].
  - constructor; [|constructor]. cbn [tick_event_ok]. exists ms.
    split; [exact F|]. split; [|reflexivity].
    unfold tick_raises. now rewrite Hs.
  - apply Hsends with (messages := ms); try assumption.
    intros _. split; [|reflexivity].
    unfold tick_raises. rewrite S, Ha. apply orb_true_r.
  - apply Forall_app. split; [|constructor; [reflexivity | constructor]].
    apply Hsends with (messages := ms); try assumption.
    intros Hr. exfalso. apply tick_sends_raised in Hr.
    apply tick_raises_false in Hc as [_ Hc]. rewrite S in Hc. congruence.
Qed.


End TickMore.

(* ================================================================== *)
(** ** The handlers, case by case *)

Section HandlerCases.
Context {builtins : PyBuiltins}.
Variable ADMIN_USER_IDS : list Z.

(** Which handler the table gives for a text. *)
Lemma handlers_get_cases text handler :
  handlers_get handlers text = Some handler ->
  (text = LABEL_ADD_TOKEN /\ handler = ask_sms_token) \/
  (text = LABEL_SWITCH_TOKEN /\ handler = choose_sms_token) \/
  (text = LABEL_DELETE_TOKEN /\ handler = delete_sms_token) \/
  (text = LABEL_SET_CHAT /\ handler = ask_chat_id) \/
  (text = LABEL_SET_KEYWORDS /\ handler = ask_keywords) \/
  (text = LABEL_START /\ handler = start_forwarding) \/
  (text = LABEL_STOP /\ handler = stop_forwarding) \/
  (text = LABEL_SHOW_CONFIG /\ handler = show_config) \/
  (text = LABEL_RETURN /\ handler = back_to_menu).
Proof.
  unfold handlers. cbn [handlers_get].
  repeat match goal with
         | |- context [eqb text ?l] =>
             let E := fresh "E" in
             destruct (eqb text l) eqn:E; [apply eqb_eq in E|clear E]
         end;
    intros H; try discriminate; injection H as <-; tauto.
Qed.

(** The result of [handle_message], case by case. *)
Lemma handle_message_cases w u get_chat :
  let r := handle_message ADMIN_USER_IDS w u get_chat in
  (message_text u = None /\ r = (w, [])) \/
  (is_authorized ADMIN_USER_IDS u = false /\
   r = (w, if effective_chat u then [Reply R_denied NoMarkup] else [])) \/
  (exists raw, message_text u = Some raw /\
     is_authorized ADMIN_USER_IDS u = true /\
     ((exists mode, user_mode w = Some mode /\
                    r = handle_pending_input w get_chat mode (strip raw)) \/
      (user_mode w = None /\
       exists handler, handlers_get handlers (strip raw) = Some handler /\
                       r = handler w) \/
      (user_mode w = None /\ handlers_get handlers (strip raw) = None /\
       r = (w, [Reply R_use_buttons MainMenuMarkup])))).
Proof.
  cbv zeta. unfold handle_message.
  destruct (message_text u) as [raw|]; [|now left].
  destruct (is_authorized ADMIN_USER_IDS u); cbn [negb]; [|right; now left].
  right. right. exists raw. split; [reflexivity|]. split; [reflexivity|].
  destruct (user_mode w) as [mode|].
  - left. now exists mode.
  - right. destruct (handlers_get handlers (strip raw)) as [handler|].
    + left. split; [reflexivity|]. now exists handler.
    + right. now repeat split.
Qed.

End HandlerCases.

(** The cases of [handle_pending_input], each with its result computed. *)
Ltac pending_cases w get_chat mode text :=
  destruct mode; unfold handle_pending_input, store_update, update;
  cbn [fold_left];
  [ destruct (truthy (strip text)) eqn:?; cbn [negb]
  | destruct (resolve_chat_id get_chat text) as [[]|[?|]] eqn:?
  | idtac
  | destruct (eqb text LABEL_RETURN) eqn:?;
    [|destruct (mem text (sms_tokens (store w))) eqn:?; cbn [negb]]
  | destruct (eqb text LABEL_RETURN) eqn:?;
    [|destruct (mem text (sms_tokens (store w))) eqn:?; cbn [negb]] ].

(** The cases of a menu handler found in the table. *)
Ltac menu_cases w H :=
  apply handlers_get_cases in H;
  destruct H as [[? ->]|[[? ->]|[[? ->]|[[? ->]|[[? ->]|[[? ->]|[[? ->]|
                [[? ->]|[? ->]]]]]]]]];
  [ unfold ask_sms_token
  | unfold choose_sms_token; destruct (sms_tokens (store w)) eqn:?
  | unfold delete_sms_token; destruct (sms_tokens (store w)) eqn:?
  | unfold ask_chat_id
  | unfold ask_keywords
  | unfold start_forwarding;
    destruct (active_sms_token (store w)) as [[|? ?]|] eqn:?;
    [ | destruct (target_chat_id (store w)) as [?chat|] eqn:?;
        [ destruct (chat =? 0) eqn:?;
          [ | destruct (poll_job w) as [[|]|] eqn:?;
              unfold store_update, update; cbn [fold_left] ]
        | ]
      | ]
  | unfold stop_forwarding; destruct (poll_job w) as [[|]|] eqn:?;
    unfold store_update, update; cbn [fold_left]
  | unfold show_config
  | unfold back_to_menu ].

Section SendOrder.
Context {builtins : PyBuiltins}.
Variable ADMIN_USER_IDS : list Z.

Lemma handle_pending_input_no_sends w get_chat mode text :
  sent_messages (snd (handle_pending_input w get_chat mode text)) = [].
Proof. pending_cases w get_chat mode text; reflexivity. Qed.

Lemma menu_handler_no_sends w text handler :
  handlers_get handlers text = Some handler ->
  sent_messages (snd (handler w)) = [].
Proof. intros H. menu_cases w H; reflexivity. Qed.

Lemma handle_message_no_sends w u get_chat :
  sent_messages (snd (handle_message ADMIN_USER_IDS w u get_chat)) = [].
Proof.
  destruct (handle_message_cases ADMIN_USER_IDS w u get_chat)
    as [[_ ->] | [[_ ->] | [raw (_ & _ & [[mode [_ ->]] |
         [[_ [handler [H ->]]] | (_ & _ & ->)]])]]].
  - reflexivity.
  - now destruct (effective_chat u).
  - apply handle_pending_input_no_sends.
  - now apply menu_handler_no_sends with (text := strip raw).
  - reflexivity.
Qed.

Lemma handle_start_no_sends w u :
  sent_messages (snd (handle_start ADMIN_USER_IDS w u)) = [].
Proof.
  unfold handle_start. destruct (is_authorized ADMIN_USER_IDS u); cbn [negb].
  - reflexivity.
  - now destruct (effective_chat u).
Qed.

Lemma send_effect_none w r :
  sent_messages (snd r) = [] -> send_effect w r.
Proof.
  intros E. unfold send_effect. rewrite E. simpl.
  repeat split; try constructor. intros H. now contradiction H.
Qed.

Lemma map_msg_id_has_id (l : list message) :
  Forall (fun m => has_id m = true) l ->
  List.map get_id l = List.map Some (ids_of l).
Proof.
  induction 1 as [|m l Hm Hl IH]; [reflexivity|].
  unfold has_id in Hm. rewrite ids_of_cons. cbn [List.map].
  destruct (get_id m); [|discriminate].
  simpl. now rewrite IH.
Qed.

Lemma attempted_sorted kws (l : list message) :
  key_sorted l -> key_sorted (attempted kws l).
Proof.
  unfold key_sorted. induction 1 as [|m l Hs IH Hall]; simpl; [constructor|].
  destruct (aborts kws m); constructor; [exact IH|].
  rewrite Forall_forall in *. intros x Hx. apply Hall.
  now apply attempted_incl in Hx.
Qed.

Lemma new_messages_sorted (h : option Z) (l : list message) :
  key_sorted (new_messages_of h l).
Proof.
  destruct (new_messages_of_filter h l) as [E|E]; rewrite E.
  - constructor.
  - apply stable_sort_sorted.
Qed.

Lemma ids_of_incl (a b : list message) (i : Z) :
  (forall m, In m a -> In m b) -> In i (ids_of a) -> In i (ids_of b).
Proof.
  intros Hincl. unfold ids_of. rewrite !in_flat_map.
  intros [m [Hm Hi]]. exists m. split; [now apply Hincl | exact Hi].
Qed.

Lemma ids_of_new_above (h x : Z) (l : list message) :
  In x (ids_of (new_messages_of (Some h) l)) -> h < x.
Proof.
  unfold new_messages_of. destruct (sort_by_id l); [|contradiction].
  apply ids_of_select_new_above.
Qed.

(** The sends of a tick on the new messages of a batch: each has an
    id, the ids ascend and lie above the mark. *)
Lemma tick_sent_bounds (h : option Z) (l : list message) kws
    (p : message -> bool) :
  let sent := filter p (attempted kws (new_messages_of h l)) in
  List.map get_id sent = List.map Some (ids_of sent) /\
  StronglySorted Z.le (ids_of sent) /\
  (forall x, h = Some x -> Forall (fun i => x < i) (ids_of sent)).
Proof.
  cbv zeta.
  assert (Hincl : forall m,
            In m (filter p (attempted kws (new_messages_of h l))) ->
            In m (new_messages_of h l)).
  { intros m Hm. apply filter_In in Hm as [Hm _].
    now apply attempted_incl in Hm. }
  assert (Hid : Forall (fun m => has_id m = true)
                  (filter p (attempted kws (new_messages_of h l)))).
  { apply Forall_forall. intros m Hm.
    pose proof (new_messages_have_id h l) as Ha.
    rewrite Forall_forall in Ha. now apply Ha, Hincl. }
  split; [now apply map_msg_id_has_id|]. split.
  - rewrite ids_of_keys by exact Hid. apply key_sorted_ids.
    apply filter_sorted, attempted_sorted, new_messages_sorted.
  - intros x ->. apply Forall_forall. intros i Hi.
    apply (ids_of_incl _ _ i Hincl) in Hi.
    now apply ids_of_new_above in Hi.
Qed.

Lemma poll_sms_send_bounds config fetched delivered :
  let sent := sent_messages (snd (poll_sms config fetched delivered)) in
  List.map get_id sent = List.map Some (ids_of sent) /\
  StronglySorted Z.le (ids_of sent) /\
  (forall h, last_seen_id config = Some h ->
             Forall (fun i => h < i) (ids_of sent)).
Proof.
  cbv zeta.
  destruct (poll_sms_cases config fetched delivered)
    as [E | [(_ & _ & E) | [(_ & ms & _ & _ & E)
       | [(_ & ms & n & rest & _ & _ & S & _ & E)
         | (_ & ms & n & rest & _ & _ & S & E)]]]];
    rewrite E; cbn [snd];
    try (repeat split; try constructor; intros; constructor).
  - rewrite tick_sends_sent, <- S. apply tick_sent_bounds.
  - rewrite sent_messages_app, tick_sends_sent. simpl sent_messages.
    rewrite app_nil_r, <- S. apply tick_sent_bounds.
Qed.

Lemma poll_sms_send_effect w fetched delivered :
  ~ In Raised (snd (poll_sms (store w) fetched delivered)) ->
  send_effect w
    (let '(c, evs) := poll_sms (store w) fetched delivered in
     (with_store w c, evs)).
Proof.
  pose proof (poll_sms_send_bounds (store w) fetched delivered) as HB.
  cbv zeta in HB. revert HB.
  destruct (poll_sms_cases (store w) fetched delivered)
    as [E | [(_ & _ & E) | [(_ & ms & _ & _ & E)
       | [(_ & ms & n & rest & _ & _ & S & Ha & E)
         | (_ & ms & n & rest & _ & Hc & S & E)]]]];
    rewrite E; cbn [snd]; intros (A & B & C) Hr;
    try (now apply send_effect_none).
  - exfalso. apply Hr. now apply tick_sends_raised.
  - unfold send_effect. cbn [fst snd with_store store].
    split; [exact A|]. split; [exact B|]. split; [exact C|].
    intros _. rewrite after_tick_mark. eexists. split; [reflexivity|].
    rewrite sent_messages_app, tick_sends_sent. simpl sent_messages.
    rewrite app_nil_r.
    apply Forall_forall. intros i Hi.
    pose proof (fold_left_max_elem (ids_of (n :: rest))
                  (or_zero (last_seen_id (store w)))) as Hall.
    rewrite Forall_forall in Hall. apply Hall.
    revert Hi. apply ids_of_incl. intros m Hm.
    apply filter_In in Hm as [Hm _]. now apply attempted_incl in Hm.
Qed.

Lemma step_send_bounds w o :
  let sent := sent_messages (snd (step ADMIN_USER_IDS w o)) in
  List.map get_id sent = List.map Some (ids_of sent) /\
  StronglySorted Z.le (ids_of sent) /\
  (forall h, last_seen_id (store w) = Some h ->
             Forall (fun i => h < i) (ids_of sent)).
Proof.
  assert (Hnone : forall evs, sent_messages evs = [] ->
            let sent := sent_messages evs in
            List.map get_id sent = List.map Some (ids_of sent) /\
            StronglySorted Z.le (ids_of sent) /\
            (forall h, last_seen_id (store w) = Some h ->
                       Forall (fun i => h < i) (ids_of sent))).
  { intros evs E. cbv zeta. rewrite E.
    repeat split; intros; constructor. }
  destruct o as [u | u get_chat | fetched delivered]; cbn [step].
  - apply Hnone, handle_start_no_sends.
  - apply Hnone, handle_message_no_sends.
  - destruct (poll_job w) as [[|]|]; try (now apply Hnone).
    pose proof (poll_sms_send_bounds (store w) fetched delivered) as H.
    now destruct (poll_sms (store w) fetched delivered).
Qed.

Lemma step_send_effect w o :
  ~ In Raised (snd (step ADMIN_USER_IDS w o)) ->
  send_effect w (step ADMIN_USER_IDS w o).
Proof.
  destruct o as [u | u get_chat | fetched delivered]; cbn [step]; intros Hr.
  - apply send_effect_none, handle_start_no_sends.
  - apply send_effect_none, handle_message_no_sends.
  - destruct (poll_job w) as [[|]|]; try (now apply send_effect_none).
    apply poll_sms_send_effect.
    now destruct (poll_sms (store w) fetched delivered).
Qed.

Lemma run_mark_le w ops h :
  last_seen_id (store w) = Some h ->
  exists h', last_seen_id (store (fst (run ADMIN_USER_IDS w ops))) = Some h' /\
             h <= h'.
Proof.
  revert w h. induction ops as [|o ops IH]; intros w h Hh; cbn [run].
  - exists h. split; [exact Hh | lia].
  - pose proof (step_effect ADMIN_USER_IDS w o) as (_ & _ & Hm).
    destruct (Hm h Hh) as [h1 [Hh1 Hle]].
    destruct (step ADMIN_USER_IDS w o) as [w1 evs1]. cbn [fst] in *.
    destruct (IH w1 h1 Hh1) as [h2 [Hh2 Hle2]].
    destruct (run ADMIN_USER_IDS w1 ops) as [w2 evs2]. cbn [fst] in *.
    exists h2. split; [exact Hh2 | lia].
Qed.

(** Along every run, with or without ticks that raise: what is sent
    has an id, above the mark of the start. *)
Lemma run_send_bounds w ops :
  let sent := sent_messages (snd (run ADMIN_USER_IDS w ops)) in
  List.map get_id sent = List.map Some (ids_of sent) /\
  (forall h, last_seen_id (store w) = Some h ->
             Forall (fun i => h < i) (ids_of sent)).
Proof.
  cbv zeta. revert w. induction ops as [|o ops IH]; intros w; cbn [run].
  - split; [reflexivity | intros; constructor].
  - pose proof (step_send_bounds w o) as (A1 & _ & C1).
    pose proof (step_effect ADMIN_USER_IDS w o) as (_ & _ & M1).
    destruct (step ADMIN_USER_IDS w o) as [w1 evs1]. cbn [fst snd] in *.
    specialize (IH w1). destruct IH as (A2 & C2).
    destruct (run ADMIN_USER_IDS w1 ops) as [w2 evs2]. cbn [fst snd] in *.
    rewrite sent_messages_app, ids_of_app, !map_app, A1, A2.
    split; [reflexivity|].
    intros h Hh. apply Forall_app. split; [now apply C1|].
    destruct (M1 h Hh) as [h1 [Hh1 Hle]].
    eapply Forall_impl; [|apply (C2 h1 Hh1)]. intros ? ?; cbv beta in *; lia.
Qed.

Lemma run_send_effect w ops :
  ~ In Raised (snd (run ADMIN_USER_IDS w ops)) ->
  send_effect w (run ADMIN_USER_IDS w ops).
Proof.
  revert w. induction ops as [|o ops IH]; intros w; cbn [run].
  - intros _. now apply send_effect_none.
  - pose proof (step_send_effect w o) as S1.
    pose proof (step_effect ADMIN_USER_IDS w o) as (_ & _ & M1).
    pose proof (fun h => run_mark_le (fst (step ADMIN_USER_IDS w o)) ops h) as ML.
    destruct (step ADMIN_USER_IDS w o) as [w1 evs1]. cbn [fst snd] in *.
    specialize (IH w1).
    destruct (run ADMIN_USER_IDS w1 ops) as [w2 evs2]. cbn [fst snd] in *.
    intros Hr.
    destruct S1 as (A1 & B1 & C1 & D1);
      [intros H; apply Hr, in_or_app; now left|].
    destruct IH as (A2 & B2 & C2 & D2);
      [intros H; apply Hr, in_or_app; now right|].
    cbn [fst snd] in *.
    unfold send_effect. cbn [fst snd].
    rewrite sent_messages_app, ids_of_app, !map_app, A1, A2.
    split; [reflexivity|]. split.
    { apply StronglySorted_app_le; [exact B1 | exact B2|].
      intros a b Ha Hb.
      destruct (sent_messages evs1) as [|s1 rest1] eqn:E1; [contradiction|].
      destruct D1 as [m [Hm Hall]]; [discriminate|].
      rewrite Forall_forall in Hall. specialize (Hall a Ha).
      specialize (C2 m Hm). rewrite Forall_forall in C2.
      specialize (C2 b Hb). lia. }
    split.
    { intros h Hh. apply Forall_app. split; [now apply C1|].
      destruct (M1 h Hh) as [h1 [Hh1 Hle]].
      eapply Forall_impl; [|apply (C2 h1 Hh1)]. intros ? ?; cbv beta in *; lia. }
    intros Hne.
    destruct (sent_messages evs2) as [|s2 rest2] eqn:E2.
    + rewrite app_nil_r in Hne. change (ids_of (@nil message)) with (@nil Z).
      rewrite app_nil_r.
      destruct (D1 Hne) as [m [Hm Hall]].
      destruct (ML m Hm) as [m' [Hm' Hle]].
      exists m'. split; [exact Hm'|].
      eapply Forall_impl; [|exact Hall]. intros ? ?; cbv beta in *; lia.
    + destruct D2 as [m2 [Hm2 Hall2]]; [discriminate|].
      exists m2. split; [exact Hm2|]. apply Forall_app. split; [|exact Hall2].
      destruct (sent_messages evs1) as [|s1 rest1] eqn:E1; [constructor|].
      destruct D1 as [m1 [Hm1 Hall1]]; [discriminate|].
      destruct (ML m1 Hm1) as [m' [Hm' Hle]].
      assert (m' = m2) by congruence. subst m'.
      eapply Forall_impl; [|exact Hall1]. intros ? ?; cbv beta in *; lia.
Qed.

Lemma run_app w ops1 ops2 :
  run ADMIN_USER_IDS w (ops1 ++ ops2) =
  let '(w1, evs1) := run ADMIN_USER_IDS w ops1 in
  let '(w2, evs2) := run ADMIN_USER_IDS w1 ops2 in
  (w2, evs1 ++ evs2).
Proof.
  revert w. induction ops1 as [|o ops1 IH]; intros w; cbn [run app].
  - now destruct (run ADMIN_USER_IDS w ops2).
  - destruct (step ADMIN_USER_IDS w o) as [w1 evs1]. rewrite IH.
    destruct (run ADMIN_USER_IDS w1 ops1) as [w2 evs2].
    destruct (run ADMIN_USER_IDS w2 ops2) as [w3 evs3].
    now rewrite app_assoc.
Qed.

(** X4. Along every run, every message sent has an id, and when the
    mark is set at the start no id at or below it is ever sent; and
    along a run in which no tick raises, the ids are sent in ascending
    order over the whole run. *)
Theorem sends_ascend_over_runs w ops :
  let events := snd (run ADMIN_USER_IDS w ops) in
  let sent := sent_messages events in
  List.map get_id sent = List.map Some (ids_of sent) /\
  (forall h, last_seen_id (store w) = Some h ->
             Forall (fun i => h < i) (ids_of sent)) /\
  (~ In Raised events -> StronglySorted Z.le (ids_of sent)).
Proof.
  cbv zeta. destruct (run_send_bounds w ops) as (A & C).
  split; [exact A|]. split; [exact C|].
  intros Hr. now destruct (run_send_effect w ops Hr) as (_ & B & _).
Qed.

(** X5. What a run in which no tick raises sends is never sent again
    by the operations that follow it, whether they raise or not: every
    id sent in the continuation of the run is strictly above every id
    sent in the run. *)
Theorem no_id_sent_again w ops1 ops2 :
  let r1 := run ADMIN_USER_IDS w ops1 in
  let r2 := run ADMIN_USER_IDS (fst r1) ops2 in
  snd (run ADMIN_USER_IDS w (ops1 ++ ops2)) = snd r1 ++ snd r2 /\
  (~ In Raised (snd r1) ->
   forall a b,
     In a (ids_of (sent_messages (snd r1))) ->
     In b (ids_of (sent_messages (snd r2))) ->
     a < b).
Proof.
  cbv zeta. split.
  { rewrite run_app. destruct (run ADMIN_USER_IDS w ops1) as [w1 evs1].
    cbn [fst snd]. now destruct (run ADMIN_USER_IDS w1 ops2). }
  intros Hr a b Ha Hb.
  destruct (run_send_effect w ops1 Hr) as (_ & _ & _ & D).
  destruct (sent_messages (snd (run ADMIN_USER_IDS w ops1)))
    as [|s1 rest1] eqn:E1; [contradiction|].
  destruct D as [m [Hm Hall]]; [discriminate|].
  rewrite Forall_forall in Hall. specialize (Hall a Ha).
  destruct (run_send_bounds (fst (run ADMIN_USER_IDS w ops1)) ops2)
    as (_ & C).
  specialize (C m Hm). rewrite Forall_forall in C. specialize (C b Hb). lia.
Qed.

End SendOrder.

(* ================================================================== *)
(** ** The conversation: who may speak, what a reply changes *)

Lemma poll_sms_keeps_interval {builtins : PyBuiltins}
    config fetched delivered :
  poll_interval (fst (poll_sms config fetched delivered))
  = poll_interval config.
Proof.
  destruct (poll_sms_cases config fetched delivered)
    as [E | [(_ & _ & E) | [(_ & ms & _ & _ & E)
       | [(_ & ms & n & rest & _ & _ & _ & _ & E)
         | (_ & ms & n & rest & _ & _ & _ & E)]]]];
    rewrite E; reflexivity.
Qed.

Section ConversationMore.
Context {builtins : PyBuiltins}.
Variable ADMIN_USER_IDS : list Z.

Lemma is_authorized_false u :
  ADMIN_USER_IDS <> [] ->
  (forall id, effective_user u = Some id -> ~ In id ADMIN_USER_IDS) ->
  is_authorized ADMIN_USER_IDS u = false.
Proof.
  intros Hne Hout. unfold is_authorized.
  destruct ADMIN_USER_IDS as [|a l] eqn:E; [congruence|].
  destruct (effective_user u) as [id|]; [|reflexivity].
  destruct (existsb (Z.eqb id) (a :: l)) eqn:Ex; [|reflexivity].
  apply existsb_exists in Ex as [x [Hx Hid]]. apply Z.eqb_eq in Hid. subst x.
  exfalso. now apply (Hout id).
Qed.

(** X6. When the allow-list is not empty, a command or a message from
    a sender who is not on it (or from no identifiable sender) changes
    nothing: the configuration, the pending action and the job queue stay
    as they are, nothing is saved or sent, and the only reply, if any, is
    the denial. *)
Theorem unauthorized_sender_changes_nothing w u get_chat :
  ADMIN_USER_IDS <> [] ->
  (forall id, effective_user u = Some id -> ~ In id ADMIN_USER_IDS) ->
  let rm := step ADMIN_USER_IDS w (Op_message u get_chat) in
  let rs := step ADMIN_USER_IDS w (Op_start u) in
  fst rm = w /\ denial_only (snd rm) /\
  fst rs = w /\ denial_only (snd rs).
Proof.
  intros Hne Hout. pose proof (is_authorized_false u Hne Hout) as Ha.
  cbv zeta. cbn [step]. unfold handle_message, handle_start, denial_only.
  rewrite Ha. cbn [negb].
  destruct (message_text u), (effective_chat u); cbn [fst snd]; tauto.
Qed.

(** X7. Whitespace around the operator's text is ignored: in every
    state, a message and the same message with its text trimmed have the
    same result. *)
Theorem surrounding_whitespace_is_ignored w u get_chat raw :
  message_text u = Some raw ->
  handle_message ADMIN_USER_IDS w u get_chat =
  handle_message ADMIN_USER_IDS w (with_text u (strip raw)) get_chat.
Proof.
  intros E. unfold handle_message. rewrite E.
  cbn [message_text with_text].
  replace (is_authorized ADMIN_USER_IDS (with_text u (strip raw)))
    with (is_authorized ADMIN_USER_IDS u) by reflexivity.
  now rewrite strip_idem.
Qed.

Lemma handlers_get_none text :
  ~ In text MENU_LABELS -> handlers_get handlers text = None.
Proof.
  intros Hn. destruct (handlers_get handlers text) as [handler|] eqn:E;
    [|reflexivity].
  exfalso. apply Hn. apply handlers_get_cases in E.
  unfold MENU_LABELS, handlers. cbn [List.map fst].
  repeat (destruct E as [[-> _] | E]; [simpl; tauto|]).
  destruct E as [-> _]. simpl; tauto.
Qed.

(** X8. With no action pending, an authorized operator's text that is
    none of the nine button labels changes nothing: the world is as
    before, and the only effect is the reply that shows the menu. *)
Theorem unknown_text_in_menu_changes_nothing w u get_chat raw :
  is_authorized ADMIN_USER_IDS u = true ->
  message_text u = Some raw ->
  user_mode w = None ->
  ~ In (strip raw) MENU_LABELS ->
  handle_message ADMIN_USER_IDS w u get_chat =
  (w, [Reply R_use_buttons MainMenuMarkup]).
Proof.
  intros Ha Hm Hmode Hn. unfold handle_message.
  rewrite Hm, Ha, Hmode. cbn [negb]. now rewrite handlers_get_none.
Qed.

(** X9. The text given while an action is pending has one of two
    outcomes: it is turned down, and then the world is exactly as before
    and nothing is saved; or the pending action is cleared. The
    configuration is saved only in the second case, once, and what is
    saved is the configuration left in the store. The job queue is never
    touched. *)
Theorem pending_input_reprompts_or_returns w get_chat mode text :
  let r := handle_pending_input w get_chat mode text in
  poll_job (fst r) = poll_job w /\
  (fst r = w /\ saved_configs (snd r) = [] \/ user_mode (fst r) = None) /\
  (saved_configs (snd r) = [] \/
   user_mode (fst r) = None /\ saved_configs (snd r) = [store (fst r)]).
Proof.
  cbv zeta. pending_cases w get_chat mode text; cbn;
    repeat split; tauto.
Qed.

Lemma handle_pending_input_frame w get_chat mode text :
  let c' := store (fst (handle_pending_input w get_chat mode text)) in
  last_seen_id c' = last_seen_id (store w) /\
  poll_interval c' = poll_interval (store w) /\
  forwarding_enabled c' = forwarding_enabled (store w).
Proof.
  cbv zeta. pending_cases w get_chat mode text; cbn; repeat split.
Qed.

Lemma menu_handler_frame w text handler :
  handlers_get handlers text = Some handler ->
  let c' := store (fst (handler w)) in
  last_seen_id c' = last_seen_id (store w) /\
  poll_interval c' = poll_interval (store w) /\
  sms_tokens c' = sms_tokens (store w) /\
  active_sms_token c' = active_sms_token (store w) /\
  target_chat_id c' = target_chat_id (store w) /\
  keywords c' = keywords (store w).
Proof.
  intros H. cbv zeta. menu_cases w H; cbn; repeat split; congruence.
Qed.

(** X10. No command and no message of the operator, in any state,
    changes the mark or the poll interval; along every run the poll
    interval stays what it was. *)
Theorem operator_never_changes_mark_or_interval w u get_chat ops :
  let cm := store (fst (handle_message ADMIN_USER_IDS w u get_chat)) in
  let cs := store (fst (handle_start ADMIN_USER_IDS w u)) in
  last_seen_id cm = last_seen_id (store w) /\
  poll_interval cm = poll_interval (store w) /\
  last_seen_id cs = last_seen_id (store w) /\
  poll_interval cs = poll_interval (store w) /\
  poll_interval (store (fst (run ADMIN_USER_IDS w ops))) =
  poll_interval (store w).
Proof.
  assert (Hm : forall w u get_chat,
             last_seen_id (store (fst (handle_message ADMIN_USER_IDS w u get_chat)))
             = last_seen_id (store w) /\
             poll_interval (store (fst (handle_message ADMIN_USER_IDS w u get_chat)))
             = poll_interval (store w)).
  { clear. intros w u get_chat.
    destruct (handle_message_cases ADMIN_USER_IDS w u get_chat)
      as [[_ ->] | [[_ ->] | [raw (_ & _ & [[mode [_ ->]] |
           [[_ [handler [H ->]]] | (_ & _ & ->)]])]]]; try (now split).
    - pose proof (handle_pending_input_frame w get_chat mode (strip raw)).
      cbv zeta in *. tauto.
    - pose proof (menu_handler_frame w _ _ H). cbv zeta in *. tauto. }
  assert (Hs : forall w u,
             store (fst (handle_start ADMIN_USER_IDS w u)) = store w).
  { clear. intros w u. unfold handle_start.
    now destruct (is_authorized ADMIN_USER_IDS u). }
  cbv zeta. rewrite Hs. destruct (Hm w u get_chat) as [-> ->].
  repeat split. clear u get_chat.
  revert w. induction ops as [|o ops IH]; intros w; cbn [run]; [reflexivity|].
  assert (Hstep : poll_interval (store (fst (step ADMIN_USER_IDS w o)))
                  = poll_interval (store w)).
  { destruct o as [u | u get_chat | fetched delivered]; cbn [step].
    - now rewrite Hs.
    - apply Hm.
    - destruct (poll_job w) as [[|]|]; try reflexivity.
      pose proof (poll_sms_keeps_interval (store w) fetched delivered) as Ht.
      destruct (poll_sms (store w) fetched delivered) as [c evs].
      exact Ht. }
  destruct (step ADMIN_USER_IDS w o) as [w1 evs1]. cbn [fst] in *.
  specialize (IH w1). destruct (run ADMIN_USER_IDS w1 ops) as [w2 evs2].
  cbn [fst] in *. congruence.
Qed.

(** X11. At every point of a run the configuration in the store is the
    last one saved, or the one at the start if nothing was saved yet: the
    store never differs from what was last written. *)
Theorem store_is_last_saved w ops :
  let r := run ADMIN_USER_IDS w ops in
  store (fst r) = last (saved_configs (snd r)) (store w).
Proof.
  cbv zeta. revert w. induction ops as [|o ops IH]; intros w; cbn [run];
    [reflexivity|].
  pose proof (step_effect ADMIN_USER_IDS w o) as [Hsave _].
  destruct (step ADMIN_USER_IDS w o) as [w1 evs1]. cbn [fst snd] in *.
  specialize (IH w1). destruct (run ADMIN_USER_IDS w1 ops) as [w2 evs2].
  cbn [fst snd] in *. rewrite saved_configs_app, IH.
  destruct Hsave as [[-> ->] | ->]; [reflexivity|].
  cbn [app]. generalize (saved_configs evs2). intros l.
  destruct l as [|c l]; [reflexivity|].
  clear. revert c. induction l as [|d l IHl]; intros c; [reflexivity|].
  change (last (c :: d :: l) (store w1)) with (last (d :: l) (store w1)).
  change (last (store w1 :: c :: d :: l) (store w))
    with (last (c :: d :: l) (store w)).
  change (last (c :: d :: l) (store w)) with (last (d :: l) (store w)).
  specialize (IHl d).
  change (last (store w1 :: d :: l) (store w))
    with (last (d :: l) (store w)) in IHl.
  destruct l; [reflexivity|]. exact IHl.
Qed.

End ConversationMore.

(* ================================================================== *)
(** ** Tokens, keywords, and the switch of forwarding *)

Lemma job_events_app (a b : list event) :
  job_events (a ++ b) = job_events a ++ job_events b.
Proof. unfold job_events. apply flat_map_app. Qed.

Lemma last_cons_any {A} (a d : A) (l : list A) : last (a :: l) d = last l a.
Proof.
  revert a d. induction l as [|b l IH]; intros a d; [reflexivity|].
  change (last (a :: b :: l) d) with (last (b :: l) d).
  now rewrite !IH.
Qed.

Lemma alternating_app (b : bool) (l1 l2 : list bool) :
  alternating b l1 -> alternating (last l1 b) l2 -> alternating b (l1 ++ l2).
Proof.
  revert b. induction l1 as [|x l1 IH]; intros b H1 H2; [exact H2|].
  destruct H1 as [Hx H1]. cbn [app alternating]. split; [exact Hx|].
  apply IH; [exact H1|]. now rewrite last_cons_any in H2.
Qed.

Lemma last_app_bool (l1 l2 : list bool) (b : bool) :
  last (l1 ++ l2) b = last l2 (last l1 b).
Proof.
  revert b. induction l1 as [|x l1 IH]; intros b; [reflexivity|].
  change ((x :: l1) ++ l2) with (x :: (l1 ++ l2)).
  now rewrite !last_cons_any, IH.
Qed.

Lemma parse_keywords_ok (text : str) : Forall keyword_ok (parse_keywords text).
Proof.
  eapply Forall_impl; [|apply parse_keywords_entries].
  intros k (A & B & C & D & _). now repeat split.
Qed.

Lemma filter_not_there (t : str) (tokens : list str) :
  ~ In t tokens -> filter (fun t' => negb (eqb t' t)) tokens = tokens.
Proof.
  induction tokens as [|a tokens IH]; intros Hn; [reflexivity|].
  cbn [filter]. destruct (eqb a t) eqn:E.
  - apply eqb_eq in E. subst a. exfalso. apply Hn. now left.
  - cbn [negb]. f_equal. apply IH. intros H. apply Hn. now right.
Qed.

Lemma label_is_trimmed :
  strip LABEL_ADD_TOKEN = LABEL_ADD_TOKEN /\
  strip LABEL_SWITCH_TOKEN = LABEL_SWITCH_TOKEN /\
  strip LABEL_DELETE_TOKEN = LABEL_DELETE_TOKEN.
Proof. repeat split; vm_compute; reflexivity. Qed.

Lemma handlers_get_token_labels :
  handlers_get handlers LABEL_ADD_TOKEN = Some ask_sms_token /\
  handlers_get handlers LABEL_SWITCH_TOKEN = Some choose_sms_token /\
  handlers_get handlers LABEL_DELETE_TOKEN = Some delete_sms_token.
Proof. repeat split; reflexivity. Qed.

Lemma pending_input_job {builtins : PyBuiltins} w get_chat mode text :
  poll_job (fst (handle_pending_input w get_chat mode text)) = poll_job w.
Proof. pending_cases w get_chat mode text; reflexivity. Qed.

Lemma tick_no_job_events {builtins : PyBuiltins} config fetched delivered :
  job_events (snd (poll_sms config fetched delivered)) = [].
Proof.
  assert (Hsends : forall new_messages,
            job_events (tick_sends config new_messages delivered) = []).
  { intros new_messages.
    pose proof (forward_loop_events (List.map lower (keywords config))
                  (chat_of config) new_messages
                  (or_zero (last_seen_id config)) delivered) as H.
    unfold tick_sends.
    induction H as [|e evs [->|[m [ok [-> _]]]] _ IH];
      [reflexivity | exact IH | exact IH]. }
  destruct (poll_sms_cases config fetched delivered)
    as [E | [(_ & _ & E) | [(_ & ms & _ & _ & E)
       | [(_ & ms & n & rest & _ & _ & _ & _ & E)
         | (_ & ms & n & rest & _ & _ & _ & E)]]]];
    rewrite E; try reflexivity; cbn [snd].
  - apply Hsends.
  - rewrite job_events_app, Hsends. reflexivity.
Qed.

Section TokensAndSwitch.
Context {builtins : PyBuiltins}.
Variable ADMIN_USER_IDS : list Z.

Lemma poll_sms_lists config fetched delivered :
  let config' := fst (poll_sms config fetched delivered) in
  sms_tokens config' = sms_tokens config /\
  keywords config' = keywords config /\
  forwarding_enabled config' = forwarding_enabled config.
Proof.
  cbv zeta.
  destruct (poll_sms_cases config fetched delivered)
    as [E | [(_ & _ & E) | [(_ & ms & _ & _ & E)
       | [(_ & ms & n & rest & _ & _ & _ & _ & E)
         | (_ & ms & n & rest & _ & _ & _ & E)]]]];
    rewrite E; repeat split; reflexivity.
Qed.

Lemma handle_pending_input_lists w get_chat mode text :
  let c' := store (fst (handle_pending_input w get_chat mode text)) in
  (tokens_ok (store w) -> tokens_ok c') /\
  (Forall keyword_ok (keywords (store w)) -> Forall keyword_ok (keywords c')).
Proof.
  cbv zeta. pending_cases w get_chat mode text; cbn [fst snd store with_mode
    with_store setattr sms_tokens keywords]; split; trivial;
    unfold tokens_ok; cbn [sms_tokens setattr].
  - (* add *)
    intros [Hnd Hall].
    destruct (mem (strip text) (sms_tokens (store w))) eqn:Em;
      [now split|].
    split.
    + apply NoDup_app; [exact Hnd | constructor; [intros []|constructor]|].
      intros x Hx [<-|[]]. apply mem_In in Hx. congruence.
    + apply Forall_app. split; [exact Hall|]. constructor; [|constructor].
      split; [now destruct (strip text) | apply strip_idem].
  - (* set_keywords *)
    intros _. apply parse_keywords_ok.
  - (* delete *)
    intros [Hnd Hall]. split.
    + now apply NoDup_filter.
    + apply Forall_forall. intros t Ht. apply filter_In in Ht as [Ht _].
      rewrite Forall_forall in Hall. now apply Hall.
Qed.

Lemma step_lists w o :
  let c' := store (fst (step ADMIN_USER_IDS w o)) in
  (tokens_ok (store w) -> tokens_ok c') /\
  (Forall keyword_ok (keywords (store w)) -> Forall keyword_ok (keywords c')).
Proof.
  cbv zeta. destruct o as [u | u get_chat | fetched delivered]; cbn [step].
  - unfold handle_start. now destruct (is_authorized ADMIN_USER_IDS u).
  - destruct (handle_message_cases ADMIN_USER_IDS w u get_chat)
      as [[_ ->] | [[_ ->] | [raw (_ & _ & [[mode [_ ->]] |
           [[_ [handler [H ->]]] | (_ & _ & ->)]])]]]; try (now split).
    + apply handle_pending_input_lists.
    + pose proof (menu_handler_frame w _ _ H) as (_ & _ & T & _ & _ & K).
      unfold tokens_ok. rewrite T, K. now split.
  - destruct (poll_job w) as [[|]|]; try (now split).
    pose proof (poll_sms_lists (store w) fetched delivered) as (T & K & _).
    destruct (poll_sms (store w) fetched delivered) as [c evs].
    cbn [fst with_store store] in *. unfold tokens_ok. rewrite T, K.
    now split.
Qed.

(** X12. Along every run from a configuration whose token list holds
    no token twice and only non-empty, trimmed tokens, the token list of
    the store keeps both. *)
Theorem token_list_stays_clean w ops :
  tokens_ok (store w) ->
  tokens_ok (store (fst (run ADMIN_USER_IDS w ops))).
Proof.
  revert w. induction ops as [|o ops IH]; intros w H; cbn [run]; [exact H|].
  pose proof (step_lists w o) as [Ht _]. cbv zeta in Ht. specialize (Ht H).
  destruct (step ADMIN_USER_IDS w o) as [w1 evs1]. cbn [fst] in *.
  specialize (IH w1 Ht). now destruct (run ADMIN_USER_IDS w1 ops).
Qed.

(** X13. Along every run from a configuration whose keywords are
    non-empty, trimmed and free of commas and full-width commas, the
    keywords of the store stay so. *)
Theorem keywords_stay_clean w ops :
  Forall keyword_ok (keywords (store w)) ->
  Forall keyword_ok (keywords (store (fst (run ADMIN_USER_IDS w ops)))).
Proof.
  revert w. induction ops as [|o ops IH]; intros w H; cbn [run]; [exact H|].
  pose proof (step_lists w o) as [_ Hk]. cbv zeta in Hk. specialize (Hk H).
  destruct (step ADMIN_USER_IDS w o) as [w1 evs1]. cbn [fst] in *.
  specialize (IH w1 Hk). now destruct (run ADMIN_USER_IDS w1 ops).
Qed.

(** X14. A non-blank text given while a token is awaited makes the
    trimmed text the active token and clears the pending action; the
    token list is unchanged when the token was listed and otherwise gets
    the token at its end; and giving the same text again changes nothing
    more. *)
Theorem add_token_activates_and_is_idempotent w get_chat text :
  strip text <> [] ->
  let r := handle_pending_input w get_chat M_add_sms_token text in
  let again :=
    handle_pending_input (with_mode (fst r) (Some M_add_sms_token)) get_chat
      M_add_sms_token text in
  active_sms_token (store (fst r)) = Some (strip text) /\
  user_mode (fst r) = None /\
  (In (strip text) (sms_tokens (store w)) ->
   sms_tokens (store (fst r)) = sms_tokens (store w)) /\
  (~ In (strip text) (sms_tokens (store w)) ->
   sms_tokens (store (fst r)) = sms_tokens (store w) ++ [strip text]) /\
  store (fst again) = store (fst r).
Proof.
  intros Hne. cbv zeta. unfold handle_pending_input, store_update, update.
  assert (Ht : truthy (strip text) = true) by now destruct (strip text).
  rewrite Ht. cbn [negb fold_left fst snd store with_mode with_store setattr
                   sms_tokens active_sms_token].
  split; [reflexivity|]. split; [reflexivity|].
  destruct (mem (strip text) (sms_tokens (store w))) eqn:Em.
  - split; [reflexivity|]. split.
    + intros Hn. apply mem_In in Em. contradiction.
    + now rewrite Em.
  - split.
    + intros Hin. apply mem_In in Hin. congruence.
    + split; [reflexivity|].
      assert (E2 : mem (strip text) (sms_tokens (store w) ++ [strip text]) = true).
      { apply mem_In, in_or_app. right. now left. }
      now rewrite E2.
Qed.

Lemma handle_message_menu w u get_chat raw handler :
  is_authorized ADMIN_USER_IDS u = true ->
  message_text u = Some raw ->
  user_mode w = None ->
  handlers_get handlers (strip raw) = Some handler ->
  handle_message ADMIN_USER_IDS w u get_chat = handler w.
Proof.
  intros Ha Hm Hmode Hh. unfold handle_message.
  now rewrite Hm, Ha, Hmode, Hh.
Qed.

Lemma handle_message_pending w u get_chat raw mode :
  is_authorized ADMIN_USER_IDS u = true ->
  message_text u = Some raw ->
  user_mode w = Some mode ->
  handle_message ADMIN_USER_IDS w u get_chat =
  handle_pending_input w get_chat mode (strip raw).
Proof.
  intros Ha Hm Hmode. unfold handle_message. now rewrite Hm, Ha, Hmode.
Qed.

(** X15. From the menu, with no action pending, an authorized operator
    who adds a token and then deletes it (the add button, the text, the
    delete button, the same text), where the trimmed text is not empty,
    is not the return-to-menu label and was not listed, gets the token
    list back as it was; the active token is then the first listed
    token, or unset when there is none. *)
Theorem add_then_delete_restores_tokens w user raw g1 g2 g3 g4 :
  user_mode w = None ->
  (forall text, is_authorized ADMIN_USER_IDS (operator_says user text) = true) ->
  strip raw <> [] ->
  strip raw <> LABEL_RETURN ->
  ~ In (strip raw) (sms_tokens (store w)) ->
  let r :=
    run ADMIN_USER_IDS w
      [ Op_message (operator_says user LABEL_ADD_TOKEN) g1;
        Op_message (operator_says user raw) g2;
        Op_message (operator_says user LABEL_DELETE_TOKEN) g3;
        Op_message (operator_says user raw) g4 ] in
  sms_tokens (store (fst r)) = sms_tokens (store w) /\
  active_sms_token (store (fst r)) = hd_error (sms_tokens (store w)) /\
  user_mode (fst r) = None.
Proof.
  intros Hmode Hauth Hne Hret Hnew.
  destruct label_is_trimmed as (SA & _ & SD).
  destruct handlers_get_token_labels as (GA & _ & GD).
  assert (Ht : truthy (strip raw) = true) by now destruct (strip raw).
  assert (Hm : mem (strip raw) (sms_tokens (store w)) = false).
  { destruct (mem _ _) eqn:E; [|reflexivity]. apply mem_In in E. contradiction. }
  assert (Hm2 : mem (strip raw) (sms_tokens (store w) ++ [strip raw]) = true).
  { apply mem_In, in_or_app. right. now left. }
  assert (Hcons : exists t0 rest0,
             sms_tokens (store w) ++ [strip raw] = t0 :: rest0).
  { destruct (sms_tokens (store w)) as [|a l]; simpl; eauto. }
  destruct Hcons as [t0 [rest0 Hcons]].
  apply eqb_neq in Hret.
  cbv zeta. cbn [run step].
  (* the add button *)
  rewrite (handle_message_menu _ _ _ LABEL_ADD_TOKEN ask_sms_token)
    by (try apply Hauth; try reflexivity; try assumption; now rewrite SA).
  unfold ask_sms_token. cbv beta iota.
  (* the token *)
  rewrite (handle_message_pending _ _ _ raw M_add_sms_token)
    by (try apply Hauth; reflexivity).
  unfold handle_pending_input at 1 2 3, store_update, update.
  rewrite strip_idem, Ht. cbn [negb fold_left store with_mode with_store].
  rewrite Hm. cbv beta iota.
  (* the delete button *)
  rewrite (handle_message_menu _ _ _ LABEL_DELETE_TOKEN delete_sms_token)
    by (try apply Hauth; try reflexivity; now rewrite SD).
  unfold delete_sms_token.
  cbn [store with_mode with_store setattr sms_tokens]. rewrite Hcons.
  cbv beta iota. rewrite <- Hcons.
  (* the token again *)
  rewrite (handle_message_pending _ _ _ raw M_delete_sms_token)
    by (try apply Hauth; reflexivity).
  unfold handle_pending_input, store_update, update.
  rewrite Hret.
  cbn [store with_mode with_store setattr sms_tokens active_sms_token].
  rewrite Hm2, eqb_refl. cbn [negb fold_left fst snd store with_mode
    with_store setattr sms_tokens active_sms_token user_mode].
  rewrite filter_app. cbn [filter]. rewrite eqb_refl. cbn [negb].
  rewrite app_nil_r, filter_not_there by exact Hnew.
  split; [reflexivity|]. split; [|reflexivity].
  now destruct (sms_tokens (store w)).
Qed.

(** X16. The start of forwarding switches it on only with a non-empty
    active token, a non-zero destination and the job-queue module present;
    then it leaves a configuration on which ticks run, saves it once, and
    registers the poll job unless one is registered. In every other case
    it changes nothing, saves nothing and registers nothing. *)
Theorem start_forwarding_guards w :
  let r := start_forwarding w in
  (can_start w ->
   tick_ready (store (fst r)) /\
   poll_job (fst r) = Some true /\
   saved_configs (snd r) = [store (fst r)] /\
   job_events (snd r) =
     match poll_job w with Some true => [] | _ => [true] end) /\
  (~ can_start w ->
   fst r = w /\ saved_configs (snd r) = [] /\ job_events (snd r) = []).
Proof.
  cbv zeta. unfold start_forwarding, can_start, tick_ready.
  destruct (active_sms_token (store w)) as [[|t token]|] eqn:Ea.
  - split; [intros [[x [Hx Hn]] _]; congruence | now intros _].
  - destruct (target_chat_id (store w)) as [chat_id|] eqn:Ec.
    + destruct (chat_id =? 0) eqn:Ez.
      * apply Z.eqb_eq in Ez. subst chat_id.
        split; [intros (_ & [c [Hc Hn]] & _); congruence | now intros _].
      * apply Z.eqb_neq in Ez. destruct (poll_job w) as [existing|] eqn:Ej.
        { unfold store_update, update. cbn [fold_left]. split.
          - intros _. cbn [fst snd store with_store with_job setattr
              forwarding_enabled active_sms_token target_chat_id poll_job].
            rewrite Ea, Ec. split.
            + split; [reflexivity|]. split.
              * exists (t :: token). split; [reflexivity | discriminate].
              * exists chat_id. now split.
            + split; [reflexivity|].
              destruct existing; split; reflexivity.
          - intros Hn. exfalso. apply Hn. split.
            + exists (t :: token). split; [reflexivity | discriminate].
            + split; [exists chat_id; now split | discriminate]. }
        { split; [intros (_ & _ & Hn); congruence | now intros _]. }
    + split; [intros (_ & [c [Hc _]] & _); congruence | now intros _].
  - split; [intros [[x [Hx _]] _]; congruence | now intros _].
Qed.

Lemma job_effect_none w r :
  poll_job (fst r) = poll_job w -> job_events (snd r) = [] -> job_effect w r.
Proof.
  intros Hj He. unfold job_effect. rewrite He, Hj.
  destruct (poll_job w); now split.
Qed.

Lemma step_job_effect w o :
  job_effect w (step ADMIN_USER_IDS w o).
Proof.
  destruct o as [u | u get_chat | fetched delivered]; cbn [step].
  - apply job_effect_none; unfold handle_start;
      destruct (is_authorized ADMIN_USER_IDS u); cbn [negb];
      try reflexivity; now destruct (effective_chat u).
  - destruct (handle_message_cases ADMIN_USER_IDS w u get_chat)
      as [[_ ->] | [[_ ->] | [raw (_ & _ & [[mode [_ ->]] |
           [[_ [handler [H ->]]] | (_ & _ & ->)]])]]].
    + now apply job_effect_none.
    + apply job_effect_none; [reflexivity | now destruct (effective_chat u)].
    + apply job_effect_none.
      * apply (pending_input_job w get_chat mode (strip raw)).
      * pending_cases w get_chat mode (strip raw); reflexivity.
    + menu_cases w H; try (now apply job_effect_none);
        unfold job_effect; cbn [fst snd poll_job with_store with_job];
        match goal with J : poll_job w = _ |- _ => rewrite J end;
        cbn; tauto.
    + now apply job_effect_none.
  - destruct (poll_job w) as [[|]|] eqn:Ej; try (now apply job_effect_none).
    pose proof (tick_no_job_events (store w) fetched delivered) as Hn.
    destruct (poll_sms (store w) fetched delivered) as [c evs].
    now apply job_effect_none.
Qed.

(** X17. The poll job is never registered twice without a removal in
    between, nor removed twice without a registration: along every run
    the registrations and removals alternate from the state of the job
    queue at the start, the job queue ends in the state the last of them
    left, and without the job-queue module there is none of either. *)
Theorem poll_job_registered_at_most_once w ops :
  job_effect w (run ADMIN_USER_IDS w ops).
Proof.
  revert w. induction ops as [|o ops IH]; intros w; cbn [run].
  - now apply job_effect_none.
  - pose proof (step_job_effect w o) as H1.
    destruct (step ADMIN_USER_IDS w o) as [w1 evs1].
    specialize (IH w1). destruct (run ADMIN_USER_IDS w1 ops) as [w2 evs2].
    unfold job_effect in *. cbn [fst snd] in *. rewrite job_events_app.
    destruct (poll_job w) as [b|].
    + destruct H1 as [A1 J1]. rewrite J1 in IH. destruct IH as [A2 J2].
      split; [now apply alternating_app|]. now rewrite last_app_bool.
    + destruct H1 as [J1 E1]. rewrite J1 in IH. destruct IH as [J2 E2].
      now rewrite E1, E2.
Qed.

Lemma step_stays_stopped w o :
  forwarding_enabled (store w) = false ->
  is_start_message o = false ->
  forwarding_enabled (store (fst (step ADMIN_USER_IDS w o))) = false /\
  sent_messages (snd (step ADMIN_USER_IDS w o)) = [].
Proof.
  intros Hoff Hns. split; [|destruct o; cbn [step];
    [apply handle_start_no_sends | apply handle_message_no_sends |]].
  - destruct o as [u | u get_chat | fetched delivered]; cbn [step].
    + unfold handle_start. now destruct (is_authorized ADMIN_USER_IDS u).
    + destruct (handle_message_cases ADMIN_USER_IDS w u get_chat)
        as [[_ ->] | [[_ ->] | [raw (Hraw & _ & [[mode [_ ->]] |
             [[_ [handler [H ->]]] | (_ & _ & ->)]])]]]; try assumption.
      * pose proof (handle_pending_input_frame w get_chat mode (strip raw))
          as (_ & _ & F). cbv zeta in F. congruence.
      * cbn [is_start_message] in Hns. rewrite Hraw in Hns.
        apply eqb_neq in Hns.
        menu_cases w H; try assumption; try contradiction; reflexivity.
    + destruct (poll_job w) as [[|]|]; try assumption.
      pose proof (poll_sms_lists (store w) fetched delivered) as (_ & _ & F).
      destruct (poll_sms (store w) fetched delivered) as [c evs].
      cbn [fst with_store store] in *. congruence.
  - destruct (poll_job w) as [[|]|]; try reflexivity.
    unfold poll_sms. now rewrite Hoff.
Qed.

(** X18. While forwarding is switched off nothing is sent: along every
    run from a configuration with forwarding off, in which no message of
    the operator is the start button, no message is sent and forwarding
    stays off. *)
Theorem nothing_is_sent_while_stopped w ops :
  forwarding_enabled (store w) = false ->
  forallb (fun o => negb (is_start_message o)) ops = true ->
  let r := run ADMIN_USER_IDS w ops in
  sent_messages (snd r) = [] /\
  forwarding_enabled (store (fst r)) = false.
Proof.
  cbv zeta. revert w. induction ops as [|o ops IH]; intros w Hoff Hall;
    cbn [run]; [now split|].
  cbn [forallb] in Hall. apply andb_true_iff in Hall as [Ho Hall].
  apply negb_true_iff in Ho.
  destruct (step_stays_stopped w o Hoff Ho) as [Hoff1 Hs1].
  destruct (step ADMIN_USER_IDS w o) as [w1 evs1]. cbn [fst snd] in *.
  destruct (IH w1 Hoff1 Hall) as [Hs2 Hoff2].
  destruct (run ADMIN_USER_IDS w1 ops) as [w2 evs2]. cbn [fst snd] in *.
  now rewrite sent_messages_app, Hs1, Hs2.
Qed.

End TokensAndSwitch.

(* ================================================================== *)
(** ** The token keyboard and the display of the keywords *)

Lemma skipn_length_app {A} (pre l : list A) :
  skipn (List.length pre) (pre ++ l) = l.
Proof. induction pre as [|a pre IH]; [reflexivity | exact IH]. Qed.

Lemma slices_from (n : nat) :
  forall (pre l : list str) (fuel : nat),
    (List.length l <= n)%nat -> (List.length l <= fuel)%nat ->
    List.map (fun i => firstn 2 (skipn i (pre ++ l)))
             (range_loop fuel (List.length pre) (List.length pre + List.length l) 2)
    = rows_of_two l.
Proof.
  induction n as [|n IH]; intros pre l fuel Hn Hf.
  - destruct l; [|simpl in Hn; lia]. simpl.
    destruct fuel; [reflexivity|]. simpl.
    replace (List.length pre <? List.length pre + 0)%nat with false; [reflexivity|].
    symmetry. apply Nat.ltb_ge. lia.
  - destruct l as [|a [|b rest]].
    + destruct fuel; [reflexivity|]. simpl.
      replace (List.length pre <? List.length pre + 0)%nat with false; [reflexivity|].
      symmetry. apply Nat.ltb_ge. lia.
    + destruct fuel as [|fuel]; [simpl in Hf; lia|].
      cbn [range_loop List.length].
      replace (List.length pre <? List.length pre + 1)%nat with true
        by (symmetry; apply Nat.ltb_lt; lia).
      cbn [List.map]. rewrite skipn_length_app. cbn [firstn rows_of_two].
      f_equal. destruct fuel; [reflexivity|]. cbn [range_loop].
      replace (List.length pre + 2 <? List.length pre + 1)%nat with false; [reflexivity|].
      symmetry. apply Nat.ltb_ge. lia.
    + destruct fuel as [|fuel]; [simpl in Hf; lia|].
      cbn [range_loop List.length].
      replace (List.length pre <? List.length pre + S (S (List.length rest)))%nat with true
        by (symmetry; apply Nat.ltb_lt; lia).
      cbn [List.map]. rewrite skipn_length_app. cbn [firstn rows_of_two].
      f_equal.
      specialize (IH (pre ++ [a; b]) rest fuel).
      rewrite <- app_assoc in IH. cbn [app] in IH.
      rewrite length_app in IH. cbn [List.length] in IH.
      replace (List.length pre + 2 + List.length rest)%nat
        with (List.length pre + S (S (List.length rest)))%nat in IH by lia.
      apply IH; simpl in *; lia.
Qed.

Lemma rows_of_two_concat (n : nat) :
  forall tokens : list str,
    (List.length tokens <= n)%nat ->
    List.concat (rows_of_two tokens) = tokens /\
    Forall (fun row => (1 <= List.length row <= 2)%nat) (rows_of_two tokens).
Proof.
  induction n as [|n IH]; intros tokens Hn.
  - destruct tokens; [|simpl in Hn; lia]. split; [reflexivity | constructor].
  - destruct tokens as [|a [|b rest]].
    + split; [reflexivity | constructor].
    + split; [reflexivity|]. constructor; [simpl; lia | constructor].
    + destruct (IH rest) as [Hc Hr]; [simpl in Hn; lia|].
      cbn [rows_of_two List.concat app]. rewrite Hc. split; [reflexivity|].
      constructor; [simpl; lia | exact Hr].
Qed.

(** X19. The token keyboard of the select and delete prompts, built
    by slicing the token list two by two, shows every listed token once,
    in the order of the list, in rows of two with at most one row of one,
    and has the return button as its last row. *)
Theorem token_keyboard_shows_every_token (tokens : list str) :
  rows_of_two tokens = rows_by_slices tokens /\
  List.concat (rows_of_two tokens) = tokens /\
  Forall (fun row => (1 <= List.length row <= 2)%nat) (rows_of_two tokens) /\
  token_buttons tokens = Buttons (rows_by_slices tokens ++ [[LABEL_RETURN]]) /\
  (List.length (rows_of_two tokens) = Nat.div2 (S (List.length tokens)))%nat.
Proof.
  assert (E : rows_of_two tokens = rows_by_slices tokens).
  { unfold rows_by_slices, py_range. symmetry.
    exact (slices_from (List.length tokens) [] tokens (List.length tokens)
             (Nat.le_refl _) (Nat.le_refl _)). }
  destruct (rows_of_two_concat (List.length tokens) tokens (Nat.le_refl _))
    as [Hc Hr].
  split; [exact E|]. split; [exact Hc|]. split; [exact Hr|].
  split; [unfold token_buttons; now rewrite E|].
  clear. assert (H : forall n (l : list str), (List.length l <= n)%nat ->
                  List.length (rows_of_two l) = Nat.div2 (S (List.length l))).
  { induction n as [|n IH]; intros l Hn.
    - destruct l; [reflexivity | simpl in Hn; lia].
    - destruct l as [|a [|b rest]]; [reflexivity | reflexivity|].
      cbn [rows_of_two List.length]. rewrite IH by (simpl in Hn; lia).
      reflexivity. }
  now apply (H (List.length tokens)).
Qed.

Section Buttons.
Context {builtins : PyBuiltins}.
Variable ADMIN_USER_IDS : list Z.

(** X20. Every token button of the select keyboard does what it
    shows: from the menu, the switch button followed by the text of a
    listed, trimmed token other than the return label makes that token
    the active one, leaves the token list as it is, and returns to the
    menu; and the first reply shows that token among its buttons. *)
Theorem token_button_selects_its_token w user t g1 g2 :
  user_mode w = None ->
  (forall text, is_authorized ADMIN_USER_IDS (operator_says user text) = true) ->
  In t (sms_tokens (store w)) ->
  strip t = t ->
  t <> LABEL_RETURN ->
  let r :=
    run ADMIN_USER_IDS w
      [ Op_message (operator_says user LABEL_SWITCH_TOKEN) g1;
        Op_message (operator_says user t) g2 ] in
  In (Reply R_choose_token (token_buttons (sms_tokens (store w)))) (snd r) /\
  In t (List.concat (rows_of_two (sms_tokens (store w)))) /\
  active_sms_token (store (fst r)) = Some t /\
  sms_tokens (store (fst r)) = sms_tokens (store w) /\
  user_mode (fst r) = None.
Proof.
  intros Hmode Hauth Hin Hstrip Hret.
  destruct label_is_trimmed as (_ & SS & _).
  destruct handlers_get_token_labels as (_ & GS & _).
  assert (Hm : mem t (sms_tokens (store w)) = true) by now apply mem_In.
  apply eqb_neq in Hret.
  destruct (rows_of_two_concat (List.length (sms_tokens (store w)))
              (sms_tokens (store w)) (Nat.le_refl _)) as [Hc _].
  cbv zeta. cbn [run step].
  rewrite (handle_message_menu ADMIN_USER_IDS _ _ _ LABEL_SWITCH_TOKEN choose_sms_token)
    by (try apply Hauth; try reflexivity; try assumption; now rewrite SS).
  unfold choose_sms_token.
  destruct (sms_tokens (store w)) as [|t0 rest0] eqn:Et; [contradiction|].
  rewrite <- Et in *. cbv beta iota.
  rewrite (handle_message_pending ADMIN_USER_IDS _ _ _ t M_select_sms_token)
    by (try apply Hauth; reflexivity).
  unfold handle_pending_input, store_update, update.
  rewrite Hstrip, Hret. cbn [store with_mode]. rewrite Hm.
  cbn [negb fold_left fst snd store with_mode with_store setattr sms_tokens
       active_sms_token user_mode app].
  split; [now left|]. split; [now rewrite Hc|]. now repeat split.
Qed.

End Buttons.




Lemma strip_fixed_parts (k : str) :
  strip k = k -> lstrip k = k /\ rstrip k = k.
Proof.
  intros E. unfold strip in E.
  destruct (lstrip_decomp k) as [ws1 [E1 _]].
  destruct (rstrip_decomp (lstrip k)) as [ws2 [E2 _]].
  assert (L : List.length k = (List.length ws1 + (List.length k + List.length ws2))%nat).
  { rewrite E1 at 1. rewrite length_app. rewrite E2 at 1.
    rewrite length_app, E. reflexivity. }
  assert (ws1 = []) by (destruct ws1; [reflexivity | simpl in L; lia]).
  assert (ws2 = []) by (destruct ws2; [reflexivity | simpl in L; lia]).
  subst ws1 ws2. cbn [app] in E1. rewrite app_nil_r in E2.
  split; [now symmetry|]. rewrite <- E1 in E2. now symmetry.
Qed.




(* ================================================================== *)
(** ** The further properties on concrete inputs *)

Ltac not_among :=
  let H := fresh "H" in
  intros H; vm_compute in H;
  repeat (destruct H as [H|H]; [discriminate H|]); exact H.

Lemma tick_acts_only_when_ready_and_new_witness :
  sent_messages
    (snd (@poll_sms ascii_builtins (running_config (Some 100) [])
            (Some batch_101_99_103) [])) <> [] /\
  tick_ready (running_config (Some 100) []).
Proof.
  assert (H : sent_messages
                (snd (@poll_sms ascii_builtins (running_config (Some 100) [])
                        (Some batch_101_99_103) [])) <> [])
    by (vm_compute; discriminate).
  split; [exact H|].
  exact (proj1 (@tick_acts_only_when_ready_and_new ascii_builtins
                  (running_config (Some 100) []) (Some batch_101_99_103) []
                  (or_introl H))).
Defined.

Lemma sends_ascend_over_runs_witness :
  ~ In Raised
      (snd (@run ascii_builtins [] (running_world (Some 100) []) example_ops)) /\
  ids_of
    (sent_messages
       (snd (@run ascii_builtins [] (running_world (Some 100) []) example_ops)))
  = [101; 103; 104] /\
  StronglySorted Z.le
    (ids_of
       (sent_messages
          (snd (@run ascii_builtins [] (running_world (Some 100) [])
                  example_ops)))).
Proof.
  assert (H : ~ In Raised
                (snd (@run ascii_builtins [] (running_world (Some 100) [])
                        example_ops)))
    by (vm_compute; intuition discriminate).
  split; [exact H|]. split; [reflexivity|].
  exact (proj2 (proj2 (@sends_ascend_over_runs ascii_builtins []
                         (running_world (Some 100) []) example_ops)) H).
Defined.

Lemma no_id_sent_again_witness :
  let w := running_world (Some 100) [] in
  let ops1 := [Op_tick (Some batch_101_99_103) [false]] in
  let ops2 := [Op_tick (Some batch_101_99_103) [];
               Op_tick (Some [sms 104 "d"; sms 103 "c"]) []] in
  ~ In Raised (snd (@run ascii_builtins [] w ops1)) /\
  ids_of (sent_messages (snd (@run ascii_builtins [] w ops1))) = [101; 103] /\
  ids_of
    (sent_messages
       (snd (@run ascii_builtins [] (fst (@run ascii_builtins [] w ops1)) ops2)))
  = [104] /\
  forall a b,
    In a (ids_of (sent_messages (snd (@run ascii_builtins [] w ops1)))) ->
    In b (ids_of
            (sent_messages
               (snd (@run ascii_builtins []
                       (fst (@run ascii_builtins [] w ops1)) ops2)))) ->
    a < b.
Proof.
  cbv zeta.
  assert (H : ~ In Raised
                (snd (@run ascii_builtins [] (running_world (Some 100) [])
                        [Op_tick (Some batch_101_99_103) [false]])))
    by (vm_compute; intuition discriminate).
  split; [exact H|]. split; [reflexivity|]. split; [reflexivity|].
  exact (proj2 (@no_id_sent_again ascii_builtins []
                  (running_world (Some 100) [])
                  [Op_tick (Some batch_101_99_103) [false]]
                  [Op_tick (Some batch_101_99_103) [];
                   Op_tick (Some [sms 104 "d"; sms 103 "c"]) []]) H).
Defined.

(** A run with a tick that raises: with the keyword "a", two ticks on
    the batch of message 101 and a message of null content send 101
    twice and save nothing. *)
Example run_with_aborted_ticks :
  let r :=
    @run ascii_builtins [] (running_world (Some 100) [lit "a"])
      [ Op_tick (Some [sms 101 "a"; sms_null_content 102]) [];
        Op_tick (Some [sms 101 "a"; sms_null_content 102]) [] ] in
  snd r = [SendSms 42 (sms 101 "a") true; Raised;
           SendSms 42 (sms 101 "a") true; Raised] /\
  ids_of (sent_messages (snd r)) = [101; 101] /\
  store (fst r) = running_config (Some 100) [lit "a"].
Proof. vm_compute. repeat split; reflexivity. Qed.

Lemma unauthorized_sender_changes_nothing_witness :
  [7] <> [] /\
  (forall id, effective_user (stranger_says LABEL_STOP) = Some id ->
              ~ In id [7]) /\
  fst (@step ascii_builtins [7] (running_world (Some 100) [])
         (Op_message (stranger_says LABEL_STOP) None))
  = running_world (Some 100) [].
Proof.
  assert (A : [7] <> (@nil Z)) by discriminate.
  assert (B : forall id, effective_user (stranger_says LABEL_STOP) = Some id ->
                         ~ In id [7]).
  { intros id E [H|[]]. simpl in E. congruence. }
  split; [exact A|]. split; [exact B|].
  exact (proj1 (@unauthorized_sender_changes_nothing ascii_builtins [7]
                  (running_world (Some 100) []) (stranger_says LABEL_STOP)
                  None A B)).
Defined.

Lemma surrounding_whitespace_is_ignored_witness :
  message_text (text_update (lit "  B ")) = Some (lit "  B ") /\
  @handle_message ascii_builtins [] (awaiting config_AB M_select_sms_token)
    (text_update (lit "  B ")) None =
  @handle_message ascii_builtins [] (awaiting config_AB M_select_sms_token)
    (with_text (text_update (lit "  B ")) (strip (lit "  B "))) None.
Proof.
  split; [reflexivity|].
  apply (@surrounding_whitespace_is_ignored ascii_builtins []). reflexivity.
Defined.

Lemma unknown_text_in_menu_changes_nothing_witness :
  @is_authorized [7] (admin_says (lit "hello")) = true /\
  message_text (admin_says (lit "hello")) = Some (lit "hello") /\
  user_mode (menu_root config_AB) = None /\
  ~ In (strip (lit "hello")) MENU_LABELS /\
  @handle_message ascii_builtins [7] (menu_root config_AB)
    (admin_says (lit "hello")) None =
  (menu_root config_AB, [Reply R_use_buttons MainMenuMarkup]).
Proof.
  assert (N : ~ In (strip (lit "hello")) MENU_LABELS) by not_among.
  split; [reflexivity|]. split; [reflexivity|]. split; [reflexivity|].
  split; [exact N|].
  apply (@unknown_text_in_menu_changes_nothing ascii_builtins [7]
           (menu_root config_AB) (admin_says (lit "hello")) None (lit "hello"));
    try reflexivity. exact N.
Defined.

Lemma token_list_stays_clean_witness :
  tokens_ok (store (running_world (Some 100) [])) /\
  tokens_ok
    (store (fst (@run ascii_builtins [] (running_world (Some 100) [])
                   example_ops))).
Proof.
  assert (T : tokens_ok (store (running_world (Some 100) []))).
  { split.
    - constructor; [intros [] | constructor].
    - constructor; [|constructor]. split; [discriminate | reflexivity]. }
  split; [exact T|].
  exact (@token_list_stays_clean ascii_builtins []
           (running_world (Some 100) []) example_ops T).
Defined.

Lemma keywords_stay_clean_witness :
  Forall keyword_ok (keywords (store (running_world (Some 100) []))) /\
  Forall keyword_ok
    (keywords (store (fst (@run ascii_builtins [] (running_world (Some 100) [])
                             example_ops)))).
Proof.
  assert (K : Forall keyword_ok (keywords (store (running_world (Some 100) []))))
    by constructor.
  split; [exact K|].
  exact (@keywords_stay_clean ascii_builtins []
           (running_world (Some 100) []) example_ops K).
Defined.

Lemma add_token_activates_and_is_idempotent_witness :
  strip (lit " C ") <> [] /\
  active_sms_token
    (store (fst (@handle_pending_input ascii_builtins
                   (awaiting config_AB M_add_sms_token) None
                   M_add_sms_token (lit " C "))))
  = Some (strip (lit " C ")).
Proof.
  assert (H : strip (lit " C ") <> []) by (vm_compute; discriminate).
  split; [exact H|].
  exact (proj1 (@add_token_activates_and_is_idempotent ascii_builtins
                  (awaiting config_AB M_add_sms_token) None (lit " C ") H)).
Defined.

Lemma add_then_delete_restores_tokens_witness :
  user_mode (menu_root config_AB) = None /\
  (forall text, @is_authorized [7] (operator_says (Some 7) text) = true) /\
  strip (lit " C ") <> [] /\
  strip (lit " C ") <> LABEL_RETURN /\
  ~ In (strip (lit " C ")) (sms_tokens (store (menu_root config_AB))) /\
  sms_tokens
    (store (fst (@run ascii_builtins [7] (menu_root config_AB)
                   [ Op_message (operator_says (Some 7) LABEL_ADD_TOKEN) None;
                     Op_message (operator_says (Some 7) (lit " C ")) None;
                     Op_message (operator_says (Some 7) LABEL_DELETE_TOKEN) None;
                     Op_message (operator_says (Some 7) (lit " C ")) None ])))
  = sms_tokens (store (menu_root config_AB)).
Proof.
  assert (A : forall text,
             @is_authorized [7] (operator_says (Some 7) text) = true)
    by (intros text; reflexivity).
  assert (B : strip (lit " C ") <> []) by (vm_compute; discriminate).
  assert (C : strip (lit " C ") <> LABEL_RETURN) by (vm_compute; discriminate).
  assert (D : ~ In (strip (lit " C "))
                (sms_tokens (store (menu_root config_AB)))) by not_among.
  split; [reflexivity|]. split; [exact A|]. split; [exact B|].
  split; [exact C|]. split; [exact D|].
  exact (proj1 (@add_then_delete_restores_tokens ascii_builtins [7]
                  (menu_root config_AB) (Some 7) (lit " C ")
                  None None None None eq_refl A B C D)).
Defined.

Lemma nothing_is_sent_while_stopped_witness :
  forwarding_enabled (store (running_world (Some 100) [])) = true /\
  forwarding_enabled
    (store (fst (@step ascii_builtins [] (running_world (Some 100) [])
                   (Op_message (text_update LABEL_STOP) None)))) = false /\
  forallb (fun o => negb (is_start_message o)) stopped_ops = true /\
  sent_messages
    (snd (@run ascii_builtins []
            (fst (@step ascii_builtins [] (running_world (Some 100) [])
                    (Op_message (text_update LABEL_STOP) None)))
            stopped_ops)) = [].
Proof.
  split; [reflexivity|]. split; [reflexivity|]. split; [reflexivity|].
  exact (proj1 (@nothing_is_sent_while_stopped ascii_builtins []
                  (fst (@step ascii_builtins [] (running_world (Some 100) [])
                          (Op_message (text_update LABEL_STOP) None)))
                  stopped_ops eq_refl eq_refl)).
Defined.

Lemma token_button_selects_its_token_witness :
  user_mode (menu_root config_AB) = None /\
  (forall text, @is_authorized [7] (operator_says (Some 7) text) = true) /\
  In (lit "B") (sms_tokens (store (menu_root config_AB))) /\
  strip (lit "B") = lit "B" /\
  lit "B" <> LABEL_RETURN /\
  active_sms_token
    (store (fst (@run ascii_builtins [7] (menu_root config_AB)
                   [ Op_message (operator_says (Some 7) LABEL_SWITCH_TOKEN) None;
                     Op_message (operator_says (Some 7) (lit "B")) None ])))
  = Some (lit "B").
Proof.
  assert (A : forall text,
             @is_authorized [7] (operator_says (Some 7) text) = true)
    by (intros text; reflexivity).
  assert (I : In (lit "B") (sms_tokens (store (menu_root config_AB))))
    by (right; left; reflexivity).
  assert (R : lit "B" <> LABEL_RETURN) by discriminate.
  split; [reflexivity|]. split; [exact A|]. split; [exact I|].
  split; [reflexivity|]. split; [exact R|].
  destruct (@token_button_selects_its_token ascii_builtins [7]
              (menu_root config_AB) (Some 7) (lit "B") None None
              eq_refl A I eq_refl R) as (_ & _ & H & _).
  exact H.
Defined.


(** The switch in the example run: the job is registered once more
    after the stop, and the registrations and removals alternate. *)
Example example_run_jobs :
  job_events
    (snd (@run ascii_builtins [] (running_world (Some 100) []) example_ops))
  = [false; true].
Proof. vm_compute. reflexivity. Qed.
